(** * Email notifier of the notification manager: model and verification

    Shallow embedding of [pkg/notify/email.go]: the construction of an
    [EmailNotifier], the dispatch loop [Notify], the subject synthesis
    [getSubject] and the configuration copy [Clone].

    Go values are modelled as follows.
    - Strings are [string] (sequences of bytes); [fmt.Sprintf] with [%s]
      verbs is concatenation and [%d] is decimal rendering.
    - A [map[string]string] that is only read is a [gmap string string]
      (a nil map reads like the empty map).  A map that is written through
      a shared reference lives in the store and is named by a location.
    - A pointer to a struct that is written after it is shared is a
      location of the store ([None] is the nil pointer); a pointer whose
      pointee is never written is an [option].
    - [range] over a map visits the entries in an order the language leaves
      unspecified: the order is an explicit list, drawn from an oracle.
    - A run-time panic (nil dereference, write to a nil map) is the
      outcome [Panic]. *)

From Stdlib Require Import ZArith.
From stdpp Require Import gmap strings list fin_maps pretty.

Open Scope string_scope.

Abbreviation loc := positive (only parsing).

(** ** Package [strings] *)

Module strings.

(** [HasSuffix(s, suffix)]:
    [len(s) >= len(suffix) && s[len(s)-len(suffix):] == suffix]. *)
Definition HasSuffix (s suffix : string) : bool :=
  (String.length suffix <=? String.length s)%nat &&
  String.eqb
    (String.substring (String.length s - String.length suffix)
               (String.length suffix) s)
    suffix.

(** [TrimSuffix(s, suffix)]: [s] without the trailing [suffix], or [s]
    itself when it does not end with [suffix]. *)
Definition TrimSuffix (s suffix : string) : string :=
  if HasSuffix s suffix
  then String.substring 0 (String.length s - String.length suffix) s
  else s.

End strings.

(** ** Package [model] (prometheus/common) and [types] (alertmanager) *)

Module model.

Abbreviation LabelSet := (gmap string string) (only parsing).

Definition AlertFiring : string := "firing".
Definition AlertResolved : string := "resolved".

Record Alert := {
  Labels : LabelSet;
  Annotations : LabelSet;
  StartsAt : Z;
  EndsAt : Z;
  GeneratorURL : string
}.

End model.

Module types.

(** [types.Alert] embeds [model.Alert]; the dispatch loop fills in only
    the embedded part. *)
Record Alert := { Alert_ : model.Alert }.

End types.

(** ** Package [template] (alertmanager) *)

Module template.

Abbreviation KV := (gmap string string) (only parsing).

Record Alert := {
  Status : string;
  Labels : KV;
  Annotations : KV;
  StartsAt : Z;
  EndsAt : Z;
  GeneratorURL : string
}.

Abbreviation Alerts := (list Alert) (only parsing).

(** [Alerts.Firing()]: the alerts whose status is ["firing"], in order. *)
Definition Firing (as_ : Alerts) : list Alert :=
  filter (λ a, Status a = model.AlertFiring) as_.

(** [Alerts.Resolved()]: the alerts whose status is ["resolved"]. *)
Definition Resolved (as_ : Alerts) : list Alert :=
  filter (λ a, Status a = model.AlertResolved) as_.

Record Data := {
  Receiver : string;
  BatchStatus : string;
  Alerts_ : Alerts;
  GroupLabels : KV;
  CommonLabels : KV;
  CommonAnnotations : KV;
  ExternalURL : string
}.

(** A parsed URL, kept as the text it was parsed from. *)
Abbreviation URL := string (only parsing).

(** [template.Template]: the parsed template set (opaque, named) and the
    external URL that the dispatch loop overwrites for every batch. *)
Record Template := {
  Name : string;
  TExternalURL : option URL
}.

End template.

(** ** Subject synthesis *)

(** [m[k]] on a Go map: the zero value when the key is missing. *)
Definition index (m : gmap string string) (k : string) : string :=
  default "" (m !! k).

(** One iteration of the [range] loop of [getSubject] (lines 144-150). *)
Definition label_step (labels : string) (kv : string * string) : string :=
  let '(k, v) := kv in
  if bool_decide (k = "namespace" ∨ k = "alertname")
  then labels
  else labels +:+ k +:+ "=" +:+ v +:+ ",".

(** [getSubject]; [order] is the sequence of entries that [range
    data.CommonLabels] visits. *)
Definition getSubject (order : list (string * string))
    (data : template.Data) : string :=
  let subject := "" in
  let ns := index (template.CommonLabels data) "namespace" in
  let alertname := index (template.CommonLabels data) "alertname" in
  let firingNum := length (template.Firing (template.Alerts_ data)) in
  let subject :=
    if (0 <? firingNum)%nat
    then "[FIRING:" +:+ pretty firingNum +:+ "] "
    else subject in
  let resolvedNum := length (template.Resolved (template.Alerts_ data)) in
  let subject :=
    if (0 <? resolvedNum)%nat
    then subject +:+ "[RESOLVED:" +:+ pretty resolvedNum +:+ "] "
    else subject in
  let subject :=
    if (0 <? String.length ns)%nat
    then subject +:+ " " +:+ ns
    else subject in
  let subject :=
    if (0 <? String.length alertname)%nat
    then
      if (0 <? String.length ns)%nat
      then subject +:+ "/" +:+ alertname
      else subject +:+ alertname
    else subject in
  let labels := foldl label_step "" order in
  if (0 <? String.length labels)%nat
  then
    let labels := strings.TrimSuffix labels "," in
    subject +:+ " (" +:+ labels +:+ ")"
  else subject.

(** [kvToLabelSet]: the entries of [obj] copied into a fresh label set. *)
Definition kvToLabelSet (obj : template.KV) : model.LabelSet :=
  map_fold (λ k v ls, <[k := v]> ls) ∅ obj.

(** ** Packages [time], [commoncfg] and [config] *)

Module time.

(** [time.Duration] is a signed 64-bit count of nanoseconds. *)
Definition int64 (z : Z) : Z := ((z + 2 ^ 63) `mod` 2 ^ 64 - 2 ^ 63)%Z.

Definition Second : Z := 1000000000.

(** Multiplication of two durations, with the wrap-around of [int64]. *)
Definition mul (a b : Z) : Z := int64 (a * b).

End time.

Module commoncfg.

Record TLSConfig := {
  CAFile : string;
  CertFile : string;
  KeyFile : string;
  ServerName : string;
  InsecureSkipVerify : bool
}.

End commoncfg.

Module config.

Record HostPort := { Host : string; Port : string }.

Record NotifierConfig := { VSendResolved : bool }.

(** [config.EmailConfig].  [Headers] is a reference to a header map of
    the store ([None] is the nil map); [RequireTLS] is a pointer to a
    boolean that nothing here reads or writes, so only its address is
    kept ([None] is the nil pointer). *)
Record EmailConfig := {
  Notifier : NotifierConfig;
  To : string;
  From : string;
  Hello : string;
  Smarthost : HostPort;
  AuthUsername : string;
  AuthPassword : string;
  AuthSecret : string;
  AuthIdentity : string;
  Headers : option loc;
  HTML : string;
  Text : string;
  RequireTLS : option loc;
  TLSConfig : commoncfg.TLSConfig
}.

Definition set_To (to : string) (c : EmailConfig) : EmailConfig :=
  {| Notifier := Notifier c; To := to; From := From c; Hello := Hello c;
     Smarthost := Smarthost c; AuthUsername := AuthUsername c;
     AuthPassword := AuthPassword c; AuthSecret := AuthSecret c;
     AuthIdentity := AuthIdentity c; Headers := Headers c;
     HTML := HTML c; Text := Text c; RequireTLS := RequireTLS c;
     TLSConfig := TLSConfig c |}.

Definition set_Headers (h : option loc) (c : EmailConfig) : EmailConfig :=
  {| Notifier := Notifier c; To := To c; From := From c; Hello := Hello c;
     Smarthost := Smarthost c; AuthUsername := AuthUsername c;
     AuthPassword := AuthPassword c; AuthSecret := AuthSecret c;
     AuthIdentity := AuthIdentity c; Headers := h;
     HTML := HTML c; Text := Text c; RequireTLS := RequireTLS c;
     TLSConfig := TLSConfig c |}.

Definition set_HTML (html : string) (c : EmailConfig) : EmailConfig :=
  {| Notifier := Notifier c; To := To c; From := From c; Hello := Hello c;
     Smarthost := Smarthost c; AuthUsername := AuthUsername c;
     AuthPassword := AuthPassword c; AuthSecret := AuthSecret c;
     AuthIdentity := AuthIdentity c; Headers := Headers c;
     HTML := html; Text := Text c; RequireTLS := RequireTLS c;
     TLSConfig := TLSConfig c |}.

End config.

(** ** Declarations of the repository that the notifier uses *)

Module nmv1alpha1.

(** Modelled from the spec: the declaration of [NotificationTimeout] in
    [pkg/apis/v1alpha1] is not among the sources.  The options carry,
    per notifier kind, an optional number of seconds; the notifier reads
    the [Email] entry through a pointer to a 32-bit integer. *)
Record NotificationTimeout := { Email : option Z }.

(** Modelled from the spec: the declaration of [Options] in
    [pkg/apis/v1alpha1] is not among the sources; the notifier reads its
    optional [NotificationTimeout]. *)
Record Options := { NotificationTimeout_ : option NotificationTimeout }.

Definition int32 (z : Z) : Prop := (- 2 ^ 31 ≤ z < 2 ^ 31)%Z.

End nmv1alpha1.

Module notifyconfig.

(** Modelled from the spec: the declaration of [Email] in
    [pkg/notify/config] is not among the sources.  The receiver
    configuration holds the recipients and a pointer to the base email
    configuration. *)
Record Email := { To : list string; EmailConfig : option loc }.

End notifyconfig.

(** The value handed to a notifier factory, an [interface{}]: the nil
    interface, a pointer to [notifyconfig.Email] (possibly a nil pointer)
    or a value of any other dynamic type. *)
Inductive Value :=
| NilValue
| EmailValue (p : option notifyconfig.Email)
| OtherValue (dynamic_type : string).

(** ** The store *)

Abbreviation Error := string (only parsing).

Inductive Level := LevelError | LevelDebug.

Record LogLine := { level : Level; keyvals : list string }.

(** What one call of the transport ([email.New] followed by
    [Email.Notify]) is given: the configuration and header map behind the
    pointers at the time of the call, the template, the deadline and the
    context values, and the alerts. *)
Record Attempt := {
  att_config : config.EmailConfig;
  att_headers : gmap string string;
  att_template : template.Template;
  att_timeout : Z;
  att_group_labels : model.LabelSet;
  att_receiver : string;
  att_alerts : list types.Alert
}.

Record Store := {
  configs : gmap loc config.EmailConfig;
  header_maps : gmap loc (gmap string string);
  templates : gmap loc template.Template;
  logs : list LogLine;
  sent : list Attempt;
  seed : nat
}.

Definition empty_store : Store :=
  {| configs := ∅; header_maps := ∅; templates := ∅; logs := [];
     sent := []; seed := 0 |}.

Definition set_configs (f : gmap loc config.EmailConfig →
                            gmap loc config.EmailConfig) (σ : Store) :=
  {| configs := f (configs σ); header_maps := header_maps σ;
     templates := templates σ; logs := logs σ; sent := sent σ;
     seed := seed σ |}.

Definition set_header_maps (f : gmap loc (gmap string string) →
                                gmap loc (gmap string string)) (σ : Store) :=
  {| configs := configs σ; header_maps := f (header_maps σ);
     templates := templates σ; logs := logs σ; sent := sent σ;
     seed := seed σ |}.

Definition set_templates (f : gmap loc template.Template →
                              gmap loc template.Template) (σ : Store) :=
  {| configs := configs σ; header_maps := header_maps σ;
     templates := f (templates σ); logs := logs σ; sent := sent σ;
     seed := seed σ |}.

Definition add_log (l : LogLine) (σ : Store) :=
  {| configs := configs σ; header_maps := header_maps σ;
     templates := templates σ; logs := (logs σ ++ [l])%list; sent := sent σ;
     seed := seed σ |}.

Definition add_sent (a : Attempt) (σ : Store) :=
  {| configs := configs σ; header_maps := header_maps σ;
     templates := templates σ; logs := logs σ; sent := (sent σ ++ [a])%list;
     seed := seed σ |}.

Definition next_seed (σ : Store) :=
  {| configs := configs σ; header_maps := header_maps σ;
     templates := templates σ; logs := logs σ; sent := sent σ;
     seed := S (seed σ) |}.

(** ** Computations: state passing with panics *)

Inductive outcome (A : Type) :=
| Done (a : A) (σ : Store)
| Panic.
Arguments Done {A} a σ.
Arguments Panic {A}.

Definition M (A : Type) : Type := Store → outcome A.

Definition ret {A} (a : A) : M A := λ σ, Done a σ.

Definition bind {A B} (m : M A) (k : A → M B) : M B :=
  λ σ, match m σ with
       | Done a σ' => k a σ'
       | Panic => Panic
       end.

Definition panic {A} : M A := λ _, Panic.

Notation "'let*' x := m 'in' k" := (bind m (λ x, k))
  (at level 10, x name, m at level 100, k at level 200, only parsing).
Notation "m ;;; k" := (bind m (λ _, k))
  (at level 100, k at level 200, right associativity, only parsing).

(** A [for ... range] loop over a slice, threading the variables that the
    body assigns. *)
Fixpoint for_each {A B} (body : B → A → M B) (acc : B) (l : list A) : M B :=
  match l with
  | [] => ret acc
  | x :: l' => let* acc' := body acc x in for_each body acc' l'
  end.

(** Dereference of a pointer to a configuration. *)
Definition read_config (p : option loc) : M config.EmailConfig :=
  λ σ, match p with
       | Some l =>
           match configs σ !! l with
           | Some c => Done c σ
           | None => Panic
           end
       | None => Panic
       end.

Definition write_config (l : loc) (c : config.EmailConfig) : M unit :=
  λ σ, Done tt (set_configs <[l := c]> σ).

(** An assignment [p.f = v] to a field of the configuration behind [p];
    [set] is the update of the field. *)
Definition assign_config (p : option loc)
    (set : config.EmailConfig → config.EmailConfig) : M unit :=
  let* c := read_config p in
  match p with
  | Some l => write_config l (set c)
  | None => panic
  end.

(** [&config.EmailConfig{...}]: a new configuration at an unused address. *)
Definition alloc_config (c : config.EmailConfig) : M loc :=
  λ σ, let l := fresh (dom (configs σ)) in
       Done l (set_configs <[l := c]> σ).

(** [make(map[string]string)] *)
Definition make_map : M loc :=
  λ σ, let l := fresh (dom (header_maps σ)) in
       Done l (set_header_maps <[l := ∅]> σ).

(** [m[k]] for a map reference [m]; a nil map reads as empty. *)
Definition map_index (m : option loc) (k : string) : M string :=
  λ σ, match m with
       | Some l =>
           match header_maps σ !! l with
           | Some h => Done (index h k) σ
           | None => Panic
           end
       | None => Done "" σ
       end.

(** [m[k] = v] for a map reference [m]; writing to a nil map panics. *)
Definition map_assign (m : option loc) (k v : string) : M unit :=
  λ σ, match m with
       | Some l =>
           match header_maps σ !! l with
           | Some h => Done tt (set_header_maps <[l := <[k := v]> h]> σ)
           | None => Panic
           end
       | None => Panic
       end.

Definition read_map (m : option loc) : M (gmap string string) :=
  λ σ, match m with
       | Some l =>
           match header_maps σ !! l with
           | Some h => Done h σ
           | None => Panic
           end
       | None => Done ∅ σ
       end.

Definition read_template (p : option loc) : M template.Template :=
  λ σ, match p with
       | Some l =>
           match templates σ !! l with
           | Some t => Done t σ
           | None => Panic
           end
       | None => Panic
       end.

Definition write_template (l : loc) (t : template.Template) : M unit :=
  λ σ, Done tt (set_templates <[l := t]> σ).

Definition alloc_template (t : template.Template) : M loc :=
  λ σ, let l := fresh (dom (templates σ)) in
       Done l (set_templates <[l := t]> σ).

(** [level.Error(logger).Log(...)] and [level.Debug(logger).Log(...)] *)
Definition Log (lv : Level) (kvs : list string) : M unit :=
  λ σ, Done tt (add_log {| level := lv; keyvals := kvs |} σ).

(** ** The notifier *)

(** The constant [time.Second * 3]. *)
Definition DefaultSendTimeout : Z := (time.Second * 3)%Z.

(** [log.Logger]: a working (non-nil) sink, known by its name; what is
    logged goes to the store. *)
Record Logger := { logger_name : string }.

(** [EmailNotifier].  [Config] and [Template] are pointers into the store.
    The fields of the notifier itself are assigned during construction
    only, so the notifier is kept by value. *)
Record EmailNotifier := {
  To : list string;
  Config : option loc;
  Template : option loc;
  Timeout : Z;
  logger : Logger
}.

Definition double_quote : string := String (Ascii.ascii_of_nat 34) "".

(** The raw string literal of line 54. *)
Definition default_html : string :=
  "{{ template " +:+ double_quote +:+ "email.default.html" +:+
  double_quote +:+ " . }}".

(** [Clone]: nil for a nil base, otherwise a pointer to a new
    configuration with an empty destination, a nil header map and the
    remaining fields of the base.  [&( *ec.RequireTLS)] dereferences the
    pointer, which panics when it is nil, and yields the same pointer. *)
Definition Clone (ec : option loc) : M (option loc) :=
  match ec with
  | None => ret None
  | Some _ =>
      let* c := read_config ec in
      match config.RequireTLS c with
      | None => panic
      | Some r =>
          let* emailConfig :=
            alloc_config
              {| config.Notifier := {| config.VSendResolved := false |};
                 config.To := "";
                 config.From := config.From c;
                 config.Hello := config.Hello c;
                 config.Smarthost := config.Smarthost c;
                 config.AuthUsername := config.AuthUsername c;
                 config.AuthPassword := config.AuthPassword c;
                 config.AuthSecret := config.AuthSecret c;
                 config.AuthIdentity := config.AuthIdentity c;
                 config.Headers := None;
                 config.HTML := config.HTML c;
                 config.Text := config.Text c;
                 config.RequireTLS := Some r;
                 config.TLSConfig := config.TLSConfig c |} in
          ret (Some emailConfig)
      end
  end.

(** The timeout that lines 63-65 select. *)
Definition select_timeout (opts : option nmv1alpha1.Options)
    (current : Z) : Z :=
  match opts with
  | Some o =>
      match nmv1alpha1.NotificationTimeout_ o with
      | Some t =>
          match nmv1alpha1.Email t with
          | Some v => time.mul time.Second v
          | None => current
          end
      | None => current
      end
  | None => current
  end.

Section Notifier.

(** The order in which the [n]-th [range] over a map visits its
    entries. *)
Variable range_order :
  nat → gmap string string → list (string * string).

(** [url.Parse]: the parsed URL, or nil when parsing fails. *)
Variable url_Parse : string → option template.URL.

(** [template.FromGlobs()]: the default template set or an error. *)
Variable template_FromGlobs : template.Template + Error.

(** The transport ([email.New] and [Email.Notify] of the alert manager):
    the outcome of the [n]-th delivery attempt, nil or an error.  The
    transport is taken to read what it is given through the pointers and
    to write nothing of the store. *)
Variable deliver : nat → Attempt → option Error.

Definition map_range (m : gmap string string) :
    M (list (string * string)) :=
  λ σ, Done (range_order (seed σ) m) (next_seed σ).

(** [email.New(en.Config, en.Template, en.logger)] followed by
    [e.Notify(ctx, as...)]. *)
Definition email_Notify (en : EmailNotifier) (timeout : Z)
    (group_labels : model.LabelSet) (receiver : string)
    (as_ : list types.Alert) : M (option Error) :=
  let* c := read_config (Config en) in
  let* h := read_map (config.Headers c) in
  let* t := read_template (Template en) in
  let a := {| att_config := c; att_headers := h; att_template := t;
              att_timeout := timeout; att_group_labels := group_labels;
              att_receiver := receiver; att_alerts := as_ |} in
  λ σ, Done (deliver (length (sent σ)) a) (add_sent a σ).

Definition NewEmailNotifier (logger : Logger) (val : Value)
    (opts : option nmv1alpha1.Options) : M (option EmailNotifier) :=
  match val with
  | EmailValue p =>
      match p with
      | None => panic
      | Some receiver =>
          let* config_ := Clone (notifyconfig.EmailConfig receiver) in
          match config_ with
          | None =>
              Log LevelError ["msg"; "empty email config"] ;;;
              ret None
          | Some _ =>
              let* c := read_config config_ in
              match config.Headers c with
              | None =>
                  let* h := make_map in
                  assign_config config_ (config.set_Headers (Some h))
              | Some _ => ret tt
              end ;;;
              assign_config config_ (config.set_HTML default_html) ;;;
              match template_FromGlobs with
              | inr err =>
                  Log LevelError
                    ["msg"; "Notifier: template error"; "error"; err] ;;;
                  ret None
              | inl tmpl =>
                  let* t := alloc_template tmpl in
                  ret (Some
                    {| To := notifyconfig.To receiver;
                       Config := config_;
                       Template := Some t;
                       Timeout := select_timeout opts DefaultSendTimeout;
                       logger := logger |})
              end
          end
      end
  | _ =>
      Log LevelError ["msg"; "Notifier: value type error"] ;;;
      ret None
  end.

(** The closure [sendEmail] of [Notify]; [errs] is the captured slice. *)
Definition sendEmail (en : EmailNotifier) (d : template.Data)
    (as_ : list types.Alert) (errs : list Error) (to : string) :
    M (list Error) :=
  assign_config (Config en) (config.set_To to) ;;;
  let* err :=
    email_Notify en (Timeout en) (kvToLabelSet (template.GroupLabels d))
      (template.Receiver d) as_ in
  let* errs :=
    match err with
    | Some e =>
        let* c := read_config (Config en) in
        let* subject := map_index (config.Headers c) "Subject" in
        Log LevelError
          ["msg"; "Notifier: email notify error"; "subject"; subject;
           "address"; to; "error"; e] ;;;
        ret (errs ++ [e])%list
    | None => ret errs
    end in
  Log LevelDebug ["Notifier: send email to"; to] ;;;
  ret errs.

(** The alerts of a batch in the transport's representation. *)
Definition convert_alerts (as_ : template.Alerts) : list types.Alert :=
  (λ a,
     {| types.Alert_ :=
          {| model.Labels := kvToLabelSet (template.Labels a);
             model.Annotations := kvToLabelSet (template.Annotations a);
             model.StartsAt := template.StartsAt a;
             model.EndsAt := template.EndsAt a;
             model.GeneratorURL := template.GeneratorURL a |} |})
  <$> as_.

(** The body of the outer loop of [Notify] for one batch. *)
Definition notify_batch (en : EmailNotifier) (errs : list Error)
    (d : template.Data) : M (list Error) :=
  let* order := map_range (template.CommonLabels d) in
  let* c := read_config (Config en) in
  map_assign (config.Headers c) "Subject" (getSubject order d) ;;;
  let* t := read_template (Template en) in
  match Template en with
  | Some l =>
      write_template l
        {| template.Name := template.Name t;
           template.TExternalURL := url_Parse (template.ExternalURL d) |}
  | None => panic
  end ;;;
  let as_ := convert_alerts (template.Alerts_ d) in
  for_each (sendEmail en d as_) errs (To en).

Definition Notify (en : EmailNotifier) (data : list template.Data) :
    M (list Error) :=
  for_each (notify_batch en) [] data.

End Notifier.

(** ** Vocabulary of the statements *)

(** A common label that the subject lists in parentheses. *)
Definition other_label (kv : string * string) : Prop :=
  ¬ (kv.1 = "namespace" ∨ kv.1 = "alertname").

#[global] Instance other_label_dec kv : Decision (other_label kv) :=
  not_dec (or_dec (decide (kv.1 = "namespace"))
                  (decide (kv.1 = "alertname"))).

Definition key_value (kv : string * string) : string :=
  kv.1 +:+ "=" +:+ kv.2.

(** [elems] separated by [sep], as [strings.Join] writes them. *)
Fixpoint Join (elems : list string) (sep : string) : string :=
  match elems with
  | [] => ""
  | x :: rest =>
      match rest with
      | [] => x
      | _ :: _ => x +:+ sep +:+ Join rest sep
      end
  end.

(** The parenthesised list of labels that ends a subject. *)
Definition labels_suffix (rest : list (string * string)) : string :=
  match rest with
  | [] => ""
  | _ :: _ => " (" +:+ Join (key_value <$> rest) "," +:+ ")"
  end.

(** The subject up to the labels: what [getSubject] returns when the loop
    over the labels adds nothing. *)
Definition subject_stem (data : template.Data) : string := getSubject [] data.

(** The labels as the loop accumulates them, each followed by a comma. *)
Definition labels_of (rest : list (string * string)) : string :=
  foldr (λ kv s, key_value kv +:+ "," +:+ s) "" rest.

(** ** The store during construction and dispatch *)

(** The notifier can be used in [σ]: its configuration pointer leads to
    [c], whose header map is allocated and holds [m], and its template
    pointer leads to [t]. *)
Record ready (σ : Store) (en : EmailNotifier) (l : positive)
    (c : config.EmailConfig) (h : positive) (m : gmap string string)
    (tl : positive) (t : template.Template) : Prop := {
  ready_Config : Config en = Some l;
  ready_config : configs σ !! l = Some c;
  ready_Headers : config.Headers c = Some h;
  ready_headers : header_maps σ !! h = Some m;
  ready_Template : Template en = Some tl;
  ready_template : templates σ !! tl = Some t
}.

(** From [σ] to [σ'] the configuration at [l], the header map at [h] and
    the template at [tl] were overwritten with [c'], [m'] and [t'], the
    attempts [atts] reached the transport and [k] map iterations ran;
    nothing else in the three heaps changed. *)
Record effect (σ σ' : Store) (l : positive) (c' : config.EmailConfig)
    (h : positive) (m' : gmap string string) (tl : positive)
    (t' : template.Template) (atts : list Attempt) (k : nat) : Prop := {
  effect_configs : configs σ' = <[l := c']> (configs σ);
  effect_headers : header_maps σ' = <[h := m']> (header_maps σ);
  effect_templates : templates σ' = <[tl := t']> (templates σ);
  effect_sent : sent σ' = (sent σ ++ atts)%list;
  effect_seed : seed σ' = seed σ + k
}.

Definition attempt_for (en : EmailNotifier) (c : config.EmailConfig)
    (m : gmap string string) (t : template.Template) (d : template.Data)
    (to : string) : Attempt :=
  {| att_config := config.set_To to c; att_headers := m;
     att_template := t; att_timeout := Timeout en;
     att_group_labels := kvToLabelSet (template.GroupLabels d);
     att_receiver := template.Receiver d;
     att_alerts := convert_alerts (template.Alerts_ d) |}.

Definition last_To (tos : list string) (c : config.EmailConfig) :
    config.EmailConfig :=
  from_option (λ to, config.set_To to c) c (last tos).

Section Trace.

Variable range_order :
  nat → gmap string string → list (string * string).
Variable url_Parse : string → option string.
Variable deliver : nat → Attempt → option string.

(** The outcomes of the attempts [atts], the first of which is the
    [n]-th of the store. *)
Fixpoint outcomes (n : nat) (atts : list Attempt) : list (option string) :=
  match atts with
  | [] => []
  | a :: atts' => deliver n a :: outcomes (S n) atts'
  end.

Definition batch_headers (s : nat) (m : gmap string string)
    (d : template.Data) : gmap string string :=
  <["Subject" :=
      getSubject (range_order s (template.CommonLabels d)) d]> m.

Definition batch_template (t : template.Template) (d : template.Data) :
    template.Template :=
  {| template.Name := template.Name t;
     template.TExternalURL := url_Parse (template.ExternalURL d) |}.

Fixpoint final_headers (s : nat) (m : gmap string string)
    (data : list template.Data) : gmap string string :=
  match data with
  | [] => m
  | d :: data' => final_headers (S s) (batch_headers s m d) data'
  end.

Definition final_template (t : template.Template)
    (data : list template.Data) : template.Template :=
  foldl batch_template t data.

Definition final_config (en : EmailNotifier) (c : config.EmailConfig)
    (data : list template.Data) : config.EmailConfig :=
  match data with
  | [] => c
  | _ :: _ => last_To (To en) c
  end.

(** The attempts of a run of [Notify], batch after batch. *)
Fixpoint all_attempts (en : EmailNotifier) (c : config.EmailConfig)
    (s : nat) (m : gmap string string) (t : template.Template)
    (data : list template.Data) : list Attempt :=
  match data with
  | [] => []
  | d :: data' =>
      (attempt_for en c (batch_headers s m d) (batch_template t d) d
         <$> To en)
      ++ all_attempts en c (S s) (batch_headers s m d)
           (batch_template t d) data'
  end.

End Trace.

(** ** Clone and construction *)

(** What [Clone] stores at the new address for the base [c]. *)
Definition cloned (c : config.EmailConfig) : config.EmailConfig :=
  {| config.Notifier := {| config.VSendResolved := false |};
     config.To := "";
     config.From := config.From c;
     config.Hello := config.Hello c;
     config.Smarthost := config.Smarthost c;
     config.AuthUsername := config.AuthUsername c;
     config.AuthPassword := config.AuthPassword c;
     config.AuthSecret := config.AuthSecret c;
     config.AuthIdentity := config.AuthIdentity c;
     config.Headers := None;
     config.HTML := config.HTML c;
     config.Text := config.Text c;
     config.RequireTLS := config.RequireTLS c;
     config.TLSConfig := config.TLSConfig c |}.

(** The timeout entry for the email kind in the options, if any. *)
Definition email_timeout (opts : option nmv1alpha1.Options) : option Z :=
  o ← opts; t ← nmv1alpha1.NotificationTimeout_ o; nmv1alpha1.Email t.

(** The timeout entry, a 32-bit integer, is in the range of its type. *)
Definition valid_options (opts : option nmv1alpha1.Options) : Prop :=
  ∀ v, email_timeout opts = Some v → nmv1alpha1.int32 v.

(** The receiver value is not a pointer to an email receiver. *)
Definition wrong_shape (val : Value) : Prop := ∀ p, val ≠ EmailValue p.

(** The receiver value is an email receiver for which [Clone] returns
    nil. *)
Definition base_absent (val : Value) (σ : Store) : Prop :=
  ∃ receiver σ1,
    val = EmailValue (Some receiver) ∧
    Clone (notifyconfig.EmailConfig receiver) σ = Done None σ1.

(** ** Example inputs *)

Definition firing_alert : template.Alert :=
  {| template.Status := "firing"; template.Labels := ∅;
     template.Annotations := ∅; template.StartsAt := 0;
     template.EndsAt := 0; template.GeneratorURL := "" |}.

Definition batch_of (as_ : list template.Alert)
    (labels : gmap string string) : template.Data :=
  {| template.Receiver := "ops"; template.BatchStatus := "firing";
     template.Alerts_ := as_; template.GroupLabels := ∅;
     template.CommonLabels := labels; template.CommonAnnotations := ∅;
     template.ExternalURL := "http://alerts.example" |}.

Definition example_base : config.EmailConfig :=
  {| config.Notifier := {| config.VSendResolved := true |};
     config.To := "";
     config.From := "alerts@example.org";
     config.Hello := "example.org";
     config.Smarthost := {| config.Host := "smtp.example.org";
                            config.Port := "25" |};
     config.AuthUsername := "alerts";
     config.AuthPassword := "secret";
     config.AuthSecret := "";
     config.AuthIdentity := "";
     config.Headers := None;
     config.HTML := "<p>custom</p>";
     config.Text := "";
     config.RequireTLS := Some 1%positive;
     config.TLSConfig :=
       {| commoncfg.CAFile := ""; commoncfg.CertFile := "";
          commoncfg.KeyFile := ""; commoncfg.ServerName := "";
          commoncfg.InsecureSkipVerify := false |} |}.

(** A store that holds the base configuration at address 1. *)
Definition example_store : Store :=
  set_configs <[1%positive := example_base]> empty_store.

Definition example_receiver : notifyconfig.Email :=
  {| notifyconfig.To := ["a@example.org"; "b@example.org"];
     notifyconfig.EmailConfig := Some 1%positive |}.

Definition example_templates : template.Template + string :=
  inl {| template.Name := "default"; template.TExternalURL := None |}.

Definition example_logger : Logger := {| logger_name := "email" |}.

Definition example_order (n : nat) (m : gmap string string) :
    list (string * string) :=
  map_to_list m.

Definition example_parse (s : string) : option string := Some s.

(** A transport whose every second attempt fails. *)
Definition example_deliver (n : nat) (a : Attempt) : option string :=
  if Nat.even n then None else Some "timeout".

Definition example_options (seconds : Z) : option nmv1alpha1.Options :=
  Some {| nmv1alpha1.NotificationTimeout_ :=
            Some {| nmv1alpha1.Email := Some seconds |} |}.

Definition example_batch : template.Data :=
  batch_of [firing_alert]
    {[ "namespace" := "ns1"; "alertname" := "HighCPU" ]}.

Definition result_store {A} (o : outcome A) : Store :=
  match o with
  | Done _ σ => σ
  | Panic => empty_store
  end.

(** The notifier that the construction returns in [example_store]. *)
Definition example_notifier (opts : option nmv1alpha1.Options) :
    EmailNotifier :=
  {| To := ["a@example.org"; "b@example.org"];
     Config := Some 2%positive;
     Template := Some 1%positive;
     Timeout := select_timeout opts DefaultSendTimeout;
     logger := example_logger |}.

Definition example_built (opts : option nmv1alpha1.Options) : Store :=
  result_store
    (NewEmailNotifier example_templates example_logger
       (EmailValue (Some example_receiver)) opts example_store).

Definition example_after : Store :=
  result_store
    (Notify example_order example_parse example_deliver
       (example_notifier None) [example_batch] (example_built None)).

(** ** Further vocabulary and inputs *)

(** The namespace and the alert name as [getSubject] writes them after
    the counts (lines 131-141). *)
Definition names_part (ns alertname : string) : string :=
  match ns, alertname with
  | "", "" => ""
  | "", _ => alertname
  | _, "" => " " +:+ ns
  | _, _ => " " +:+ ns +:+ "/" +:+ alertname
  end.

(** The batch [d] with the common labels [labels]. *)
Definition with_labels (labels : gmap string string) (d : template.Data) :
    template.Data :=
  {| template.Receiver := template.Receiver d;
     template.BatchStatus := template.BatchStatus d;
     template.Alerts_ := template.Alerts_ d;
     template.GroupLabels := template.GroupLabels d;
     template.CommonLabels := labels;
     template.CommonAnnotations := template.CommonAnnotations d;
     template.ExternalURL := template.ExternalURL d |}.

Definition resolved_alert : template.Alert :=
  {| template.Status := "resolved"; template.Labels := ∅;
     template.Annotations := ∅; template.StartsAt := 0;
     template.EndsAt := 10; template.GeneratorURL := "" |}.

(** What [sendEmail] logs for the attempt [a] with the outcome [r]: an
    error line with the subject header, the address and the error if the
    attempt failed, then a debug line with the address. *)
Definition attempt_log (a : Attempt) (r : option string) : list LogLine :=
  (match r with
   | Some e =>
       [ {| level := LevelError;
            keyvals := ["msg"; "Notifier: email notify error"; "subject";
                        index (att_headers a) "Subject"; "address";
                        config.To (att_config a); "error"; e] |} ]
   | None => []
   end ++
   [ {| level := LevelDebug;
        keyvals := ["Notifier: send email to";
                    config.To (att_config a)] |} ])%list.

(** The log of the attempts [atts], the first of which is the [n]-th of
    the store, under the transport [deliver]. *)
Fixpoint trace_logs (deliver : nat → Attempt → option string) (n : nat)
    (atts : list Attempt) : list LogLine :=
  match atts with
  | [] => []
  | a :: atts' =>
      (attempt_log a (deliver n a) ++ trace_logs deliver (S n) atts')%list
  end.

(** The body of a loop adds the errors it meets to the ones it is
    given. *)
Definition appends {A} (body : list string → A → M (list string)) : Prop :=
  ∀ acc x σ,
    body acc x σ =
    match body [] x σ with
    | Done e σ' => Done (acc ++ e)%list σ'
    | Panic => Panic
    end.


(** A base configuration whose [RequireTLS] pointer is nil. *)
Definition example_base_without_tls : config.EmailConfig :=
  {| config.Notifier := config.Notifier example_base;
     config.To := config.To example_base;
     config.From := config.From example_base;
     config.Hello := config.Hello example_base;
     config.Smarthost := config.Smarthost example_base;
     config.AuthUsername := config.AuthUsername example_base;
     config.AuthPassword := config.AuthPassword example_base;
     config.AuthSecret := config.AuthSecret example_base;
     config.AuthIdentity := config.AuthIdentity example_base;
     config.Headers := config.Headers example_base;
     config.HTML := config.HTML example_base;
     config.Text := config.Text example_base;
     config.RequireTLS := None;
     config.TLSConfig := config.TLSConfig example_base |}.

(** The configuration and the template of [example_notifier] in
    [example_built]. *)
Definition example_config : config.EmailConfig :=
  config.set_HTML default_html
    (config.set_Headers (Some 1%positive) (cloned example_base)).

Definition example_template : template.Template :=
  {| template.Name := "default"; template.TExternalURL := None |}.

(** A second notifier, built in [example_built] from the same receiver,
    and the store that its construction leaves. *)
Definition example_second_notifier : EmailNotifier :=
  {| To := ["a@example.org"; "b@example.org"];
     Config := Some 3%positive;
     Template := Some 2%positive;
     Timeout := DefaultSendTimeout;
     logger := example_logger |}.

Definition example_built_twice : Store :=
  result_store
    (NewEmailNotifier example_templates example_logger
       (EmailValue (Some example_receiver)) None (example_built None)).

(** A notifier without recipients and the store of its construction. *)
Definition example_receiver_nobody : notifyconfig.Email :=
  {| notifyconfig.To := []; notifyconfig.EmailConfig := Some 1%positive |}.

Definition example_notifier_nobody : EmailNotifier :=
  {| To := [];
     Config := Some 2%positive;
     Template := Some 1%positive;
     Timeout := DefaultSendTimeout;
     logger := example_logger |}.

Definition example_built_nobody : Store :=
  result_store
    (NewEmailNotifier example_templates example_logger
       (EmailValue (Some example_receiver_nobody)) None example_store).

(** ** Tactics *)

(** Unfold the operations on the store. *)
Ltac run :=
  unfold bind, ret, panic, read_config, write_config, alloc_config,
    make_map, map_index, map_assign, read_map, read_template,
    write_template, alloc_template, Log, map_range, set_configs,
    set_header_maps, set_templates, add_log, add_sent, next_seed;
  cbn.

Tactic Notation "run" "in" hyp(H) :=
  unfold bind, ret, panic, read_config, write_config, alloc_config,
    make_map, map_index, map_assign, read_map, read_template,
    write_template, alloc_template, Log, map_range, set_configs,
    set_header_maps, set_templates, add_log, add_sent, next_seed in H;
  cbn in H.

(** * Strings *)

Lemma append_nil_l (s : string) : "" +:+ s = s.
Proof. reflexivity. Qed.

Lemma append_cons a (s t : string) : String a s +:+ t = String a (s +:+ t).
Proof. reflexivity. Qed.

Lemma append_assoc (s t u : string) : (s +:+ t) +:+ u = s +:+ (t +:+ u).
Proof.
  induction s as [|a s IH]; [done|]. by rewrite !append_cons, IH.
Qed.

Lemma append_nil_r (s : string) : s +:+ "" = s.
Proof. induction s as [|a s IH]; [done|]. by rewrite append_cons, IH. Qed.

Lemma length_append (s t : string) :
  String.length (s +:+ t) = String.length s + String.length t.
Proof.
  induction s as [|a s IH]; [done|]. rewrite append_cons. simpl.
  by rewrite IH.
Qed.

Lemma substring_prefix (s t : string) :
  String.substring 0 (String.length s) (s +:+ t) = s.
Proof.
  induction s as [|a s IH].
  - rewrite append_nil_l. by destruct t.
  - rewrite append_cons. simpl. by rewrite IH.
Qed.

Lemma substring_suffix (s t : string) :
  String.substring (String.length s) (String.length t) (s +:+ t) = t.
Proof.
  induction s as [|a s IH]; [|by rewrite append_cons].
  rewrite append_nil_l. simpl.
  induction t as [|b t IHt]; simpl; [done|]. by rewrite IHt.
Qed.

Lemma TrimSuffix_append (s suffix : string) :
  strings.TrimSuffix (s +:+ suffix) suffix = s.
Proof.
  unfold strings.TrimSuffix, strings.HasSuffix.
  rewrite length_append.
  replace (String.length s + String.length suffix - String.length suffix)
    with (String.length s) by lia.
  rewrite substring_suffix, String.eqb_refl, substring_prefix.
  destruct (Nat.leb_spec (String.length suffix)
              (String.length s + String.length suffix)); [done|lia].
Qed.

(** * The loop over the labels *)

Lemma foldl_label_step (order : list (string * string)) (acc : string) :
  foldl label_step acc order = acc +:+ labels_of (filter other_label order).
Proof.
  revert acc. induction order as [|[k v] order IH]; intros acc; simpl.
  - by rewrite append_nil_r.
  - rewrite IH, filter_cons.
    destruct (decide (other_label (k, v))) as [Hk|Hk];
      unfold other_label in Hk; simpl in Hk.
    + rewrite bool_decide_eq_false_2 by done. simpl.
      unfold key_value; simpl. by rewrite !append_assoc.
    + rewrite bool_decide_eq_true_2; [done|]. by apply dec_stable.
Qed.

Lemma labels_of_cons_Join kv rest :
  labels_of (kv :: rest) = Join (key_value <$> kv :: rest) "," +:+ ",".
Proof.
  revert kv. induction rest as [|kv' rest IH]; intros kv.
  - simpl. by rewrite append_nil_r.
  - change (labels_of (kv :: kv' :: rest))
      with (key_value kv +:+ "," +:+ labels_of (kv' :: rest)).
    rewrite IH. simpl. by rewrite !append_assoc.
Qed.

Lemma getSubject_unfold order d :
  getSubject order d =
  let labels := foldl label_step "" order in
  if (0 <? String.length labels)%nat
  then subject_stem d +:+ " (" +:+ strings.TrimSuffix labels "," +:+ ")"
  else subject_stem d.
Proof. reflexivity. Qed.

Lemma getSubject_stem order d :
  getSubject order d =
  subject_stem d +:+ labels_suffix (filter other_label order).
Proof.
  rewrite getSubject_unfold, foldl_label_step, append_nil_l.
  destruct (filter other_label order) as [|kv rest] eqn:E.
  - simpl. by rewrite append_nil_r.
  - rewrite labels_of_cons_Join. cbv zeta.
    rewrite length_append, TrimSuffix_append.
    replace (0 <? _ + String.length ",")%nat with true
      by (symmetry; apply Nat.ltb_lt; simpl; lia).
    reflexivity.
Qed.

Lemma filter_map_to_list (P : string * string → Prop)
    `{!∀ kv, Decision (P kv)} (m : gmap string string) :
  map_to_list (filter P m) ≡ₚ filter P (map_to_list m).
Proof.
  rewrite map_filter_alt. apply map_to_list_to_map.
  eapply sublist_NoDup; [apply (NoDup_fst_map_to_list m)|].
  apply fmap_sublist, sublist_filter.
Qed.

Lemma visit_order_filter (m : gmap string string) order :
  order ≡ₚ map_to_list m →
  filter other_label order ≡ₚ map_to_list (filter other_label m).
Proof. intros ->. by rewrite filter_map_to_list. Qed.

Lemma visit_order_lookup (m : gmap string string) order k v :
  order ≡ₚ map_to_list m → (k, v) ∈ order → m !! k = Some v.
Proof. intros Hp Hin. rewrite Hp in Hin. by apply elem_of_map_to_list. Qed.

(** * Subjects *)

(** C2, as amended.  Whatever order the iteration over the common labels
    takes, the labels other than [namespace] and [alertname] end the
    subject as [key=value] pairs joined by commas inside parentheses, in
    the order of the iteration: that sequence is a permutation of those
    labels, not a sorted one.  Two syntheses of one batch agree when they
    visit these labels in the same order, and always when the batch has
    at most one such label. *)
Theorem getSubject_labels_in_visit_order (d : template.Data)
    (order : list (string * string)) :
  order ≡ₚ map_to_list (template.CommonLabels d) →
  filter other_label order
    ≡ₚ map_to_list (filter other_label (template.CommonLabels d)) ∧
  getSubject order d =
    subject_stem d +:+ labels_suffix (filter other_label order) ∧
  (∀ order',
     filter other_label order' = filter other_label order →
     getSubject order' d = getSubject order d) ∧
  (∀ order',
     order' ≡ₚ map_to_list (template.CommonLabels d) →
     (size (filter other_label (template.CommonLabels d)) ≤ 1)%nat →
     getSubject order' d = getSubject order d).
Proof.
  intros Hp. split; [by apply visit_order_filter|].
  split; [apply getSubject_stem|].
  split.
  - intros order' E. by rewrite !getSubject_stem, E.
  - intros order' Hp' Hsz. rewrite !getSubject_stem. do 2 f_equal.
    apply visit_order_filter in Hp, Hp'.
    rewrite <- Hp in Hp'.
    assert (length (filter other_label order) ≤ 1)%nat as Hlen.
    { rewrite Hp. by rewrite length_map_to_list. }
    destruct (filter other_label order) as [|x [|y l]]; simpl in Hlen;
      [| |lia].
    + by apply Permutation_nil_r.
    + by apply Permutation_singleton_r.
Qed.

Lemma getSubject_labels_in_visit_order_witness :
  getSubject [("severity", "critical"); ("namespace", "ns1")]
    (batch_of [firing_alert]
       {[ "namespace" := "ns1"; "severity" := "critical" ]})
  = "[FIRING:1]  ns1 (severity=critical)".
Proof.
  destruct (getSubject_labels_in_visit_order
    (batch_of [firing_alert]
       {[ "namespace" := "ns1"; "severity" := "critical" ]})
    [("severity", "critical"); ("namespace", "ns1")]) as (_ & E & _).
  - apply (bool_decide_unpack _). vm_compute. exact I.
  - rewrite E. vm_compute. reflexivity.
Defined.

(** C2, counterexample.  For the batch whose common labels are [a=1] and
    [b=2], visiting [b] before [a] is one of the orders the iteration may
    take, and then the subject lists [b] before [a]: the keys are not
    sorted, and the subject differs from the one that the other order
    gives. *)
Lemma getSubject_keys_unsorted :
  [("b", "2"); ("a", "1")]
    ≡ₚ map_to_list
         (template.CommonLabels (batch_of [] {[ "a" := "1"; "b" := "2" ]})) ∧
  [("a", "1"); ("b", "2")]
    ≡ₚ map_to_list
         (template.CommonLabels (batch_of [] {[ "a" := "1"; "b" := "2" ]})) ∧
  getSubject [("b", "2"); ("a", "1")]
    (batch_of [] {[ "a" := "1"; "b" := "2" ]}) = " (b=2,a=1)" ∧
  getSubject [("a", "1"); ("b", "2")]
    (batch_of [] {[ "a" := "1"; "b" := "2" ]}) = " (a=1,b=2)" ∧
  getSubject [("b", "2"); ("a", "1")]
    (batch_of [] {[ "a" := "1"; "b" := "2" ]})
  ≠ getSubject [("a", "1"); ("b", "2")]
      (batch_of [] {[ "a" := "1"; "b" := "2" ]}).
Proof.
  split; [apply (bool_decide_unpack _); vm_compute; exact I|].
  split; [apply (bool_decide_unpack _); vm_compute; exact I|].
  split; [vm_compute; reflexivity|].
  split; [vm_compute; reflexivity|].
  vm_compute. discriminate.
Qed.

Lemma only_namespace_and_alertname (m : gmap string string) order :
  order ≡ₚ map_to_list m →
  (∀ k, is_Some (m !! k) → k = "namespace" ∨ k = "alertname") →
  filter other_label order = [].
Proof.
  intros Hp Hm.
  destruct (filter other_label order) as [|[k v] rest] eqn:E; [done|].
  assert ((k, v) ∈ filter other_label order) as Hin by (rewrite E; left).
  apply list_elem_of_filter in Hin as [Hother Hin].
  destruct Hother. simpl. apply Hm. exists v. by eapply visit_order_lookup.
Qed.

(** C4.  A batch whose common labels are exactly [namespace = ns1] and
    [alertname = HighCPU], with one firing alert and no resolved alert,
    gets the subject ["[FIRING:1]  ns1/HighCPU"], whatever order the
    iteration over the labels takes. *)
Theorem getSubject_golden (d : template.Data)
    (order : list (string * string)) :
  template.CommonLabels d
    = {[ "namespace" := "ns1"; "alertname" := "HighCPU" ]} →
  length (template.Firing (template.Alerts_ d)) = 1 →
  length (template.Resolved (template.Alerts_ d)) = 0 →
  order ≡ₚ map_to_list (template.CommonLabels d) →
  getSubject order d = "[FIRING:1]  ns1/HighCPU".
Proof.
  intros Hl Hf Hr Hp.
  rewrite getSubject_stem, (only_namespace_and_alertname _ _ Hp).
  - unfold subject_stem, getSubject. rewrite Hl, Hf, Hr.
    vm_compute. reflexivity.
  - rewrite Hl. intros k [v Hk].
    destruct (decide (k = "namespace")) as [|Hn]; [by left|right].
    destruct (decide (k = "alertname")) as [|Ha]; [done|].
    rewrite lookup_insert_ne, lookup_singleton_ne in Hk by done.
    discriminate.
Qed.

Lemma getSubject_golden_witness :
  getSubject [("alertname", "HighCPU"); ("namespace", "ns1")]
    (batch_of [firing_alert]
       {[ "namespace" := "ns1"; "alertname" := "HighCPU" ]})
  = "[FIRING:1]  ns1/HighCPU".
Proof.
  apply getSubject_golden.
  - reflexivity.
  - vm_compute. reflexivity.
  - vm_compute. reflexivity.
  - apply (bool_decide_unpack _). vm_compute. exact I.
Defined.

(** C9.  A batch with no firing alert, no resolved alert and no common
    label gets the empty subject. *)
Theorem getSubject_empty (d : template.Data)
    (order : list (string * string)) :
  length (template.Firing (template.Alerts_ d)) = 0 →
  length (template.Resolved (template.Alerts_ d)) = 0 →
  template.CommonLabels d = ∅ →
  order ≡ₚ map_to_list (template.CommonLabels d) →
  getSubject order d = "".
Proof.
  intros Hf Hr Hl Hp. rewrite Hl, map_to_list_empty in Hp.
  apply Permutation_nil_r in Hp. subst order.
  unfold getSubject. rewrite Hl, Hf, Hr. reflexivity.
Qed.

Lemma getSubject_empty_witness :
  getSubject [] (batch_of [] ∅) = "".
Proof.
  apply getSubject_empty.
  - vm_compute. reflexivity.
  - vm_compute. reflexivity.
  - reflexivity.
  - apply (bool_decide_unpack _). vm_compute. exact I.
Defined.

(** * The dispatch loop *)

Section Dispatch.

Variable range_order :
  nat → gmap string string → list (string * string).
Variable url_Parse : string → option string.
Variable deliver : nat → Attempt → option string.

Abbreviation attempts := (all_attempts range_order url_Parse).
Abbreviation results := (outcomes deliver).

Lemma set_To_set_To a b c :
  config.set_To a (config.set_To b c) = config.set_To a c.
Proof. reflexivity. Qed.

Lemma attempt_for_set_To en b c m t d to :
  attempt_for en (config.set_To b c) m t d to = attempt_for en c m t d to.
Proof. reflexivity. Qed.

Lemma all_attempts_set_To en b c s m t data :
  attempts en (config.set_To b c) s m t data
  = attempts en c s m t data.
Proof.
  revert s m t. induction data as [|d data IH]; intros s m t; [done|].
  simpl. by rewrite IH.
Qed.

Lemma all_attempts_last_To en tos c s m t data :
  attempts en (last_To tos c) s m t data = attempts en c s m t data.
Proof.
  unfold last_To. destruct (last tos); simpl; [|done].
  apply all_attempts_set_To.
Qed.

Lemma outcomes_app n atts1 atts2 :
  results n (atts1 ++ atts2)
  = (results n atts1 ++ results (n + length atts1) atts2)%list.
Proof.
  revert n. induction atts1 as [|a atts1 IH]; intros n; simpl.
  - by rewrite Nat.add_0_r.
  - rewrite IH. do 3 f_equal. lia.
Qed.

Lemma effect_refl σ l c h m tl t :
  configs σ !! l = Some c → header_maps σ !! h = Some m →
  templates σ !! tl = Some t →
  effect σ σ l c h m tl t [] 0.
Proof.
  intros Hc Hh Ht. split.
  - by rewrite insert_id.
  - by rewrite insert_id.
  - by rewrite insert_id.
  - by rewrite app_nil_r.
  - lia.
Qed.

Lemma effect_trans σ σ1 σ2 l c1 c2 h m1 m2 tl t1 t2 atts1 atts2 k1 k2 :
  effect σ σ1 l c1 h m1 tl t1 atts1 k1 →
  effect σ1 σ2 l c2 h m2 tl t2 atts2 k2 →
  effect σ σ2 l c2 h m2 tl t2 (atts1 ++ atts2) (k1 + k2).
Proof.
  intros [E1 E2 E3 E4 E5] [F1 F2 F3 F4 F5]. split.
  - by rewrite F1, E1, insert_insert_eq.
  - by rewrite F2, E2, insert_insert_eq.
  - by rewrite F3, E3, insert_insert_eq.
  - by rewrite F4, E4, app_assoc.
  - lia.
Qed.

Lemma effect_ready σ σ' en l c c' h m m' tl t t' atts k :
  ready σ en l c h m tl t →
  effect σ σ' l c' h m' tl t' atts k →
  config.Headers c' = Some h →
  ready σ' en l c' h m' tl t'.
Proof.
  intros [R1 R2 R3 R4 R5 R6] [E1 E2 E3 E4 E5] Hh. split; try done.
  - by rewrite E1, lookup_insert_eq.
  - by rewrite E2, lookup_insert_eq.
  - by rewrite E3, lookup_insert_eq.
Qed.

Lemma sendEmail_spec en l c h m tl t d errs to σ :
  ready σ en l c h m tl t →
  ∃ σ',
    sendEmail deliver en d (convert_alerts (template.Alerts_ d)) errs to σ
    = Done (errs ++ omap id (results (length (sent σ))
                               [attempt_for en c m t d to]))%list σ' ∧
    effect σ σ' l (config.set_To to c) h m tl t
      [attempt_for en c m t d to] 0.
Proof.
  intros [R1 R2 R3 R4 R5 R6].
  unfold sendEmail, assign_config, email_Notify. run.
  rewrite R1, R5. cbn. rewrite R2. cbn.
  rewrite lookup_insert_eq. cbn. rewrite R3, R4. cbn. rewrite R6. cbn.
  fold (attempt_for en c m t d to).
  destruct (deliver (length (sent σ)) (attempt_for en c m t d to)) as [e|];
    cbn.
  - rewrite lookup_insert_eq. cbn. rewrite R3, R4. cbn.
    eexists. split; [reflexivity|]. split; cbn; try done.
    + by rewrite insert_id.
    + by rewrite insert_id.
  - eexists. split; [by rewrite app_nil_r|]. split; cbn; try done.
    + by rewrite insert_id.
    + by rewrite insert_id.
Qed.

Lemma bind_Done {A B} (m : M A) (k : A → M B) σ a σ' :
  m σ = Done a σ' → bind m k σ = k a σ'.
Proof. unfold bind. by intros ->. Qed.

Lemma recipients_spec en l h m tl t d tos :
  ∀ c errs σ,
    ready σ en l c h m tl t →
    ∃ σ',
      for_each (sendEmail deliver en d (convert_alerts (template.Alerts_ d)))
        errs tos σ
      = Done (errs ++ omap id (results (length (sent σ))
                                 (attempt_for en c m t d <$> tos)))%list σ' ∧
      effect σ σ' l (last_To tos c) h m tl t
        (attempt_for en c m t d <$> tos) 0.
Proof.
  induction tos as [|to tos IH]; intros c errs σ R.
  - exists σ. split; [cbn; by rewrite app_nil_r|].
    destruct R. by apply effect_refl.
  - destruct (sendEmail_spec en l c h m tl t d errs to σ R)
      as (σ1 & E1 & F1).
    pose proof (effect_ready _ _ _ _ _ _ _ _ _ _ _ _ _ _ R F1
                  (ready_Headers _ _ _ _ _ _ _ _ R)) as R1.
    destruct (IH _ (errs ++ omap id (results (length (sent σ))
                              [attempt_for en c m t d to]))%list σ1 R1)
      as (σ2 & E2 & F2).
    exists σ2. split.
    + cbn [for_each]. rewrite (bind_Done _ _ _ _ _ E1), E2. f_equal.
      rewrite (effect_sent _ _ _ _ _ _ _ _ _ _ F1), length_app.
      cbn [length fmap list_fmap outcomes omap list_omap].
      rewrite <- app_assoc. f_equal.
      replace (length (sent σ) + 1) with (S (length (sent σ))) by lia.
      destruct (deliver (length (sent σ)) (attempt_for en c m t d to));
        reflexivity.
    + pose proof (effect_trans _ _ _ _ _ _ _ _ _ _ _ _ _ _ _ _ F1 F2) as F.
      replace (last_To (to :: tos) c)
        with (last_To tos (config.set_To to c)); [exact F|].
      unfold last_To. rewrite last_cons. by destruct (last tos).
Qed.

Lemma notify_batch_spec en l c h m tl t d errs σ :
  ready σ en l c h m tl t →
  let m1 := batch_headers range_order (seed σ) m d in
  let t1 := batch_template url_Parse t d in
  ∃ σ',
    notify_batch range_order url_Parse deliver en errs d σ
    = Done (errs ++ omap id (results (length (sent σ))
                               (attempt_for en c m1 t1 d <$> To en)))%list
           σ' ∧
    effect σ σ' l (last_To (To en) c) h m1 tl t1
      (attempt_for en c m1 t1 d <$> To en) 1.
Proof.
  intros R m1 t1.
  set (σ0 :=
    {| configs := configs σ; header_maps := <[h := m1]> (header_maps σ);
       templates := <[tl := t1]> (templates σ); logs := logs σ;
       sent := sent σ; seed := S (seed σ) |}).
  assert (effect σ σ0 l c h m1 tl t1 [] 1) as F0.
  { destruct R. split; cbn; try done.
    - by rewrite insert_id.
    - by rewrite app_nil_r.
    - lia. }
  pose proof (effect_ready _ _ _ _ _ _ _ _ _ _ _ _ _ _ R F0
                (ready_Headers _ _ _ _ _ _ _ _ R)) as R0.
  destruct (recipients_spec en l h m1 tl t1 d (To en) c errs σ0 R0)
    as (σ' & E & F).
  exists σ'. split.
  - destruct R as [R1 R2 R3 R4 R5 R6].
    unfold notify_batch. run. rewrite R1, R5. cbn. rewrite R2. cbn.
    rewrite R3, R4. cbn. rewrite R6. cbn. exact E.
  - exact (effect_trans _ _ _ _ _ _ _ _ _ _ _ _ _ _ _ _ F0 F).
Qed.

Lemma batches_spec en l h tl data :
  ∀ c m t errs σ,
    ready σ en l c h m tl t →
    ∃ σ',
      for_each (notify_batch range_order url_Parse deliver en) errs data σ
      = Done (errs ++ omap id (results (length (sent σ))
                       (attempts en c (seed σ) m t data)))%list σ' ∧
      effect σ σ' l (final_config en c data) h
        (final_headers range_order (seed σ) m data) tl
        (final_template url_Parse t data)
        (attempts en c (seed σ) m t data) (length data).
Proof.
  induction data as [|d data IH]; intros c m t errs σ R.
  - exists σ. split; [cbn; by rewrite app_nil_r|].
    destruct R. by apply effect_refl.
  - destruct (notify_batch_spec en l c h m tl t d errs σ R)
      as (σ1 & E1 & F1). cbv zeta in E1, F1.
    assert (config.Headers (last_To (To en) c) = Some h) as Hh.
    { unfold last_To. destruct (last (To en)); apply R. }
    pose proof (effect_ready _ _ _ _ _ _ _ _ _ _ _ _ _ _ R F1 Hh) as R1.
    destruct (IH _ _ _ (errs ++ omap id (results (length (sent σ))
        (attempt_for en c (batch_headers range_order (seed σ) m d)
           (batch_template url_Parse t d) d <$> To en)))%list σ1 R1)
      as (σ2 & E2 & F2).
    rewrite all_attempts_last_To in E2, F2.
    rewrite (effect_seed _ _ _ _ _ _ _ _ _ _ F1) in E2, F2.
    replace (seed σ + 1) with (S (seed σ)) in E2, F2 by lia.
    exists σ2. split.
    + cbn [for_each all_attempts]. rewrite (bind_Done _ _ _ _ _ E1), E2.
      f_equal. rewrite (effect_sent _ _ _ _ _ _ _ _ _ _ F1), length_app.
      by rewrite outcomes_app, omap_app, app_assoc.
    + pose proof (effect_trans _ _ _ _ _ _ _ _ _ _ _ _ _ _ _ _ F1 F2) as F.
      cbn [all_attempts final_headers final_config length].
      replace (final_config en (last_To (To en) c) data)
        with (last_To (To en) c) in F; [exact F|].
      destruct data; [done|]. cbn. unfold last_To.
      by destruct (last (To en)).
Qed.

(** [Notify] returns for every usable notifier, and this is what it
    does. *)
Lemma Notify_spec en l c h m tl t data σ :
  ready σ en l c h m tl t →
  ∃ σ',
    Notify range_order url_Parse deliver en data σ
    = Done (omap id (results (length (sent σ))
                       (attempts en c (seed σ) m t data))) σ' ∧
    effect σ σ' l (final_config en c data) h
      (final_headers range_order (seed σ) m data) tl
      (final_template url_Parse t data)
      (attempts en c (seed σ) m t data) (length data).
Proof. intros R. exact (batches_spec en l h tl data c m t [] σ R). Qed.

Lemma final_headers_last s m data :
  final_headers range_order s m data
  = match last data with
    | Some d => batch_headers range_order (s + length data - 1) m d
    | None => m
    end.
Proof.
  revert s m. induction data as [|d data IH]; intros s m; [done|].
  cbn [final_headers]. rewrite IH, last_cons.
  destruct (last data) as [d'|] eqn:E.
  - unfold batch_headers. rewrite insert_insert_eq. cbn [length].
    do 3 f_equal. lia.
  - destruct data; [|by rewrite last_cons in E; destruct (last data)].
    cbn. do 2 f_equal. lia.
Qed.

Lemma all_attempts_destinations en c s m t data :
  (λ a, config.To (att_config a)) <$> attempts en c s m t data
  = concat (replicate (length data) (To en)).
Proof.
  revert s m t. induction data as [|d data IH]; intros s m t; [done|].
  cbn [all_attempts length replicate concat].
  rewrite fmap_app, IH. f_equal.
  rewrite <- list_fmap_compose. apply list_fmap_id.
Qed.

Lemma all_attempts_length en c s m t data :
  length (attempts en c s m t data) = length data * length (To en).
Proof.
  revert s m t. induction data as [|d data IH]; intros s m t; [done|].
  cbn [all_attempts length]. rewrite length_app, length_fmap, IH. lia.
Qed.

Lemma all_attempts_Forall en c s m t data :
  Forall (λ a, att_timeout a = Timeout en ∧
               ∃ to, to ∈ To en ∧ att_config a = config.set_To to c)
    (attempts en c s m t data).
Proof.
  revert s m t. induction data as [|d data IH]; intros s m t;
    [by constructor|].
  cbn [all_attempts]. apply Forall_app. split; [|apply IH].
  apply Forall_fmap, Forall_forall. intros to Hto. cbn. eauto.
Qed.

Lemma outcomes_length n atts : length (results n atts) = length atts.
Proof.
  revert n. induction atts as [|a atts IH]; intros n; cbn; [done|].
  by rewrite IH.
Qed.

Lemma omap_id_length (rs : list (option string)) :
  length (omap id rs) = length (filter is_Some rs).
Proof.
  induction rs as [|[e|] rs IH]; [done| |].
  - rewrite filter_cons_True by eauto. cbn. by rewrite IH.
  - rewrite filter_cons_False by (by intros [? ?]). done.
Qed.

End Dispatch.

(** * Clone and construction *)

Lemma fresh_config (σ : Store) : configs σ !! fresh (dom (configs σ)) = None.
Proof. apply not_elem_of_dom, is_fresh. Qed.

Lemma Clone_Some_inv ec σ l σ' :
  Clone ec σ = Done (Some l) σ' →
  ∃ base cb,
    ec = Some base ∧ configs σ !! base = Some cb ∧
    is_Some (config.RequireTLS cb) ∧
    l = fresh (dom (configs σ)) ∧
    σ' = set_configs <[l := cloned cb]> σ.
Proof.
  unfold Clone. destruct ec as [base|]; run; [|discriminate].
  destruct (configs σ !! base) as [cb|] eqn:Hb; [|discriminate].
  destruct (config.RequireTLS cb) as [r|] eqn:Hr; [|discriminate].
  cbn. intros [= <- <-]. exists base, cb. repeat split; eauto.
  unfold cloned. by rewrite Hr.
Qed.

Lemma Clone_None_inv ec σ σ' :
  Clone ec σ = Done None σ' → ec = None ∧ σ' = σ.
Proof.
  unfold Clone. destruct ec as [base|]; run; [|by intros [= <-]].
  destruct (configs σ !! base) as [cb|]; [|discriminate].
  destruct (config.RequireTLS cb); discriminate.
Qed.

Lemma NewEmailNotifier_inv tfg logger val opts σ en σ' :
  NewEmailNotifier tfg logger val opts σ = Done (Some en) σ' →
  ∃ receiver base cb tmpl,
    val = EmailValue (Some receiver) ∧
    notifyconfig.EmailConfig receiver = Some base ∧
    configs σ !! base = Some cb ∧
    tfg = inl tmpl ∧
    let l := fresh (dom (configs σ)) in
    let h := fresh (dom (header_maps σ)) in
    let tl := fresh (dom (templates σ)) in
    en = {| To := notifyconfig.To receiver; Config := Some l;
            Template := Some tl;
            Timeout := select_timeout opts DefaultSendTimeout;
            logger := logger |} ∧
    Clone (Some base) σ = Done (Some l) (set_configs <[l := cloned cb]> σ) ∧
    σ' = {| configs :=
              <[l := config.set_HTML default_html
                       (config.set_Headers (Some h) (cloned cb))]>
                (configs σ);
            header_maps := <[h := ∅]> (header_maps σ);
            templates := <[tl := tmpl]> (templates σ);
            logs := logs σ; sent := sent σ; seed := seed σ |}.
Proof.
  intros H. unfold NewEmailNotifier in H.
  destruct val as [|[receiver|]|]; try discriminate H.
  unfold bind at 1 in H.
  destruct (Clone (notifyconfig.EmailConfig receiver) σ) as [[l|] σ1|] eqn:E;
    try discriminate H.
  destruct (Clone_Some_inv _ _ _ _ E) as (base & cb & Eb & Hb & Hr & -> & ->).
  unfold assign_config in H. run in H.
  repeat (rewrite lookup_insert_eq in H; cbn in H).
  rewrite !insert_insert_eq in H.
  destruct tfg as [tmpl|err]; cbn in H; [|discriminate H].
  injection H as <- <-. exists receiver, base, cb, tmpl.
  rewrite <- Eb. repeat split; eauto.
Qed.

Lemma NewEmailNotifier_ready tfg logger val opts σ en σ' :
  NewEmailNotifier tfg logger val opts σ = Done (Some en) σ' →
  ∃ l c h tl t,
    ready σ' en l c h ∅ tl t ∧ config.HTML c = default_html ∧
    config.To c = "" ∧ sent σ' = sent σ.
Proof.
  intros H.
  destruct (NewEmailNotifier_inv _ _ _ _ _ _ _ H)
    as (receiver & base & cb & tmpl & -> & Eb & Hb & -> & -> & _ & ->).
  do 5 eexists. split; [split; cbn|].
  - reflexivity.
  - apply lookup_insert_eq.
  - reflexivity.
  - apply lookup_insert_eq.
  - reflexivity.
  - apply lookup_insert_eq.
  - by cbn.
Qed.

(** * The dispatch loop and the stored configuration *)




(** C3.  A usable notifier with [N] recipients attempts, for each batch in
    turn, one delivery to each of the [N] recipients in turn, whatever the
    outcomes of the earlier attempts: [N] attempts for one batch.  [Notify]
    returns the errors of the failed attempts, in order: as many errors as
    attempts failed. *)
Theorem Notify_attempts_every_recipient range_order url_Parse deliver
    en l c h m tl t (data : list template.Data) σ :
  ready σ en l c h m tl t →
  ∃ errs σ' atts,
    Notify range_order url_Parse deliver en data σ = Done errs σ' ∧
    sent σ' = (sent σ ++ atts)%list ∧
    (λ a, config.To (att_config a)) <$> atts
    = concat (replicate (length data) (To en)) ∧
    length atts = length data * length (To en) ∧
    (length data = 1 → length atts = length (To en)) ∧
    errs = omap id (outcomes deliver (length (sent σ)) atts) ∧
    length errs
    = length (filter is_Some (outcomes deliver (length (sent σ)) atts)) ∧
    (length errs ≤ length atts)%nat.
Proof.
  intros R.
  destruct (Notify_spec range_order url_Parse deliver _ _ _ _ _ _ _ data _ R)
    as (σ' & E & F).
  eexists _, σ', _. split; [exact E|]. split; [apply F|].
  split; [apply all_attempts_destinations|].
  split; [apply all_attempts_length|].
  split; [intros H1; rewrite all_attempts_length, H1; lia|].
  split; [done|]. split; [apply omap_id_length|].
  rewrite omap_id_length.
  etrans; [apply length_filter|]. by rewrite outcomes_length.
Qed.

Lemma Notify_attempts_every_recipient_witness :
  ∃ errs σ',
    Notify example_order example_parse example_deliver
      (example_notifier None) [example_batch; example_batch]
      (example_built None)
    = Done errs σ' ∧
    length (sent σ') = 4.
Proof.
  destruct (Notify_attempts_every_recipient example_order example_parse
              example_deliver (example_notifier None) 2%positive
              (config.set_HTML default_html
                 (config.set_Headers (Some 1%positive) (cloned example_base)))
              1%positive ∅ 1%positive
              {| template.Name := "default"; template.TExternalURL := None |}
              [example_batch; example_batch] (example_built None))
    as (errs & σ' & atts & E & Hs & _ & Hl & _).
  - split; vm_compute; reflexivity.
  - exists errs, σ'. split; [exact E|].
    rewrite Hs, length_app, Hl. reflexivity.
Defined.

(** * Clones *)

(** C5.  Two clones of one base are two new configurations: an assignment
    to the destination of either leaves the destination of the other, and
    that of the base, as it was. *)
Theorem Clone_destinations_independent (base c1 c2 : positive)
    (σ σ1 σa σ2 : Store) (to : string) :
  Clone (Some base) σ = Done (Some c1) σ1 →
  is_Some (configs σa !! c1) →
  Clone (Some base) σa = Done (Some c2) σ2 →
  c1 ≠ c2 ∧ c1 ≠ base ∧ c2 ≠ base ∧
  (∃ σ3,
     assign_config (Some c1) (config.set_To to) σ2 = Done tt σ3 ∧
     config.To <$> configs σ3 !! c1 = Some to ∧
     configs σ3 !! c2 = configs σ2 !! c2 ∧
     configs σ3 !! base = configs σ2 !! base) ∧
  (∃ σ3,
     assign_config (Some c2) (config.set_To to) σ2 = Done tt σ3 ∧
     config.To <$> configs σ3 !! c2 = Some to ∧
     configs σ3 !! c1 = configs σ2 !! c1 ∧
     configs σ3 !! base = configs σ2 !! base).
Proof.
  intros E1 [x1 Hx1] E2.
  destruct (Clone_Some_inv _ _ _ _ E1)
    as (b1 & cb1 & [= <-] & Hb1 & _ & -> & ->).
  destruct (Clone_Some_inv _ _ _ _ E2)
    as (b2 & cb2 & [= <-] & Hb2 & _ & -> & ->).
  pose proof (fresh_config σ) as F1. pose proof (fresh_config σa) as F2.
  assert (fresh (dom (configs σ)) ≠ fresh (dom (configs σa))) as N12
    by congruence.
  assert (fresh (dom (configs σ)) ≠ base) as N1 by congruence.
  assert (fresh (dom (configs σa)) ≠ base) as N2 by congruence.
  repeat split; try done.
  - unfold assign_config. run.
    rewrite lookup_insert_ne, Hx1 by done. cbn.
    eexists. split; [reflexivity|]. cbn.
    rewrite lookup_insert_eq. split; [done|].
    split; by rewrite lookup_insert_ne.
  - unfold assign_config. run. rewrite lookup_insert_eq. cbn.
    eexists. split; [reflexivity|]. cbn.
    rewrite lookup_insert_eq. split; [done|].
    split; by rewrite (lookup_insert_ne _ (fresh (dom (configs σa)))).
Qed.

Lemma Clone_destinations_independent_witness :
  ∃ σ3,
    assign_config (Some 2%positive) (config.set_To "a@example.org")
      (result_store
         (Clone (Some 1%positive)
            (result_store (Clone (Some 1%positive) example_store))))
    = Done tt σ3 ∧
    config.To <$> configs σ3 !! 2%positive = Some "a@example.org" ∧
    config.To <$> configs σ3 !! 3%positive = Some "" ∧
    config.To <$> configs σ3 !! 1%positive = Some "".
Proof.
  destruct (Clone_destinations_independent 1%positive 2%positive 3%positive
              example_store
              (result_store (Clone (Some 1%positive) example_store))
              (result_store (Clone (Some 1%positive) example_store))
              (result_store
                 (Clone (Some 1%positive)
                    (result_store (Clone (Some 1%positive) example_store))))
              "a@example.org")
    as (_ & _ & _ & (σ3 & E & H1 & H2 & H3) & _).
  - vm_compute. reflexivity.
  - vm_compute. eauto.
  - vm_compute. reflexivity.
  - exists σ3. split; [exact E|]. split; [exact H1|].
    rewrite H2, H3. split; vm_compute; reflexivity.
Defined.

(** * Construction *)

(** C6.  The notifier that a successful construction returns has a
    configuration whose header map is allocated (and empty), and [Notify]
    runs to its end on every list of batches: the write of the
    [Subject] header never meets a nil map. *)
Theorem NewEmailNotifier_headers_allocated tfg logger val opts σ en σ' :
  NewEmailNotifier tfg logger val opts σ = Done (Some en) σ' →
  (∃ l c h,
     Config en = Some l ∧ configs σ' !! l = Some c ∧
     config.Headers c = Some h ∧ header_maps σ' !! h = Some ∅) ∧
  (∀ d order, ∃ σ'',
     (let* c := read_config (Config en) in
      map_assign (config.Headers c) "Subject" (getSubject order d)) σ'
     = Done tt σ'') ∧
  (∀ range_order url_Parse deliver data, ∃ errs σ'',
     Notify range_order url_Parse deliver en data σ' = Done errs σ'').
Proof.
  intros H.
  destruct (NewEmailNotifier_ready _ _ _ _ _ _ _ H)
    as (l & c & h & tl & t & R & _).
  split; [|split].
  - exists l, c, h. by destruct R.
  - intros d order. destruct R as [R1 R2 R3 R4 R5 R6]. run.
    rewrite R1. cbn. rewrite R2. cbn. rewrite R3, R4. eauto.
  - intros range_order url_Parse deliver data.
    destruct (Notify_spec range_order url_Parse deliver _ _ _ _ _ _ _ data
                _ R) as (σ'' & E & _).
    eauto.
Qed.

Lemma NewEmailNotifier_headers_allocated_witness :
  ∃ errs σ'',
    Notify example_order example_parse example_deliver
      (example_notifier None) [example_batch] (example_built None)
    = Done errs σ''.
Proof.
  destruct (NewEmailNotifier_headers_allocated example_templates
              example_logger (EmailValue (Some example_receiver)) None
              example_store (example_notifier None) (example_built None))
    as (_ & _ & H).
  - vm_compute. reflexivity.
  - apply H.
Defined.

Lemma seconds_no_overflow (v : Z) :
  nmv1alpha1.int32 v → time.mul time.Second v = (v * time.Second)%Z.
Proof.
  unfold nmv1alpha1.int32, time.mul, time.int64, time.Second. intros Hv.
  rewrite Z.mod_small by lia. lia.
Qed.

(** C7.  The deadline of the notifier is three seconds, unless the options
    hold a timeout for the email kind, and then it is that many seconds.
    Every delivery attempt of [Notify] is given this deadline. *)
Theorem NewEmailNotifier_timeout tfg logger val opts σ en σ' :
  valid_options opts →
  NewEmailNotifier tfg logger val opts σ = Done (Some en) σ' →
  Timeout en =
    match email_timeout opts with
    | Some v => (v * time.Second)%Z
    | None => (3 * time.Second)%Z
    end ∧
  ∀ range_order url_Parse deliver data, ∃ errs σ'' atts,
    Notify range_order url_Parse deliver en data σ' = Done errs σ'' ∧
    sent σ'' = (sent σ' ++ atts)%list ∧
    Forall (λ a, att_timeout a = Timeout en) atts.
Proof.
  intros Hv H. split.
  - destruct (NewEmailNotifier_inv _ _ _ _ _ _ _ H)
      as (receiver & base & cb & tmpl & _ & _ & _ & _ & -> & _).
    cbn. unfold select_timeout.
    destruct opts as [[[[[v|]]|]]|]; cbn; try reflexivity.
    apply seconds_no_overflow, Hv. reflexivity.
  - intros range_order url_Parse deliver data.
    destruct (NewEmailNotifier_ready _ _ _ _ _ _ _ H)
      as (l & c & h & tl & t & R & _).
    destruct (Notify_spec range_order url_Parse deliver _ _ _ _ _ _ _ data
                _ R) as (σ'' & E & F).
    eexists _, σ'', _. split; [exact E|]. split; [apply F|].
    eapply Forall_impl; [apply all_attempts_Forall|]. by intros a [? _].
Qed.

Lemma NewEmailNotifier_timeout_witness :
  Timeout (example_notifier (example_options 10)) = 10000000000%Z ∧
  Timeout (example_notifier None) = 3000000000%Z.
Proof.
  split.
  - destruct (NewEmailNotifier_timeout example_templates example_logger
                (EmailValue (Some example_receiver)) (example_options 10)
                example_store (example_notifier (example_options 10))
                (example_built (example_options 10))) as [E _].
    + intros v [= <-]. unfold nmv1alpha1.int32. lia.
    + vm_compute. reflexivity.
    + rewrite E. reflexivity.
  - destruct (NewEmailNotifier_timeout example_templates example_logger
                (EmailValue (Some example_receiver)) None
                example_store (example_notifier None)
                (example_built None)) as [E _].
    + intros v [=].
    + vm_compute. reflexivity.
    + rewrite E. reflexivity.
Defined.

(** C8.  When the receiver value is not a pointer to an email receiver,
    and likewise when [Clone] returns nil for the base configuration of
    the receiver, the construction returns nil: it logs one error and
    leaves the rest of the store as it was, so no notifier and no
    configuration comes to exist. *)
Theorem NewEmailNotifier_absent tfg logger val opts σ :
  wrong_shape val ∨ base_absent val σ →
  ∃ msg,
    NewEmailNotifier tfg logger val opts σ
    = Done None
        (add_log {| level := LevelError; keyvals := ["msg"; msg] |} σ).
Proof.
  intros [Hw|(receiver & σ1 & -> & Hc)].
  - exists "Notifier: value type error".
    destruct val as [|p|ty]; [reflexivity| |reflexivity].
    by destruct (Hw p).
  - exists "empty email config".
    destruct (Clone_None_inv _ _ _ Hc) as [_ ->].
    unfold NewEmailNotifier. unfold bind at 1. rewrite Hc. reflexivity.
Qed.

Lemma NewEmailNotifier_absent_witness :
  (∃ msg,
     NewEmailNotifier example_templates example_logger
       (OtherValue "*notifyconfig.Slack") None example_store
     = Done None
         (add_log {| level := LevelError; keyvals := ["msg"; msg] |}
            example_store)) ∧
  (∃ msg,
     NewEmailNotifier example_templates example_logger
       (EmailValue (Some {| notifyconfig.To := ["a@example.org"];
                            notifyconfig.EmailConfig := None |}))
       None example_store
     = Done None
         (add_log {| level := LevelError; keyvals := ["msg"; msg] |}
            example_store)).
Proof.
  split.
  - apply NewEmailNotifier_absent. left. intros p. discriminate.
  - apply NewEmailNotifier_absent. right.
    eexists _, example_store. split; reflexivity.
Defined.

(** C10.  A successful construction stores the fixed template reference
    in the HTML body of the notifier's configuration, whatever the HTML
    body of the base, which [Clone] had copied and which stays in the
    base; every delivery attempt of [Notify] is given the fixed
    reference. *)
Theorem NewEmailNotifier_default_html tfg logger val opts σ en σ' :
  NewEmailNotifier tfg logger val opts σ = Done (Some en) σ' →
  ∃ receiver base cb l,
    val = EmailValue (Some receiver) ∧
    notifyconfig.EmailConfig receiver = Some base ∧
    configs σ !! base = Some cb ∧
    (∃ σ1,
       Clone (Some base) σ = Done (Some l) σ1 ∧
       config.HTML <$> configs σ1 !! l = Some (config.HTML cb)) ∧
    Config en = Some l ∧
    config.HTML <$> configs σ' !! l = Some default_html ∧
    configs σ' !! base = Some cb ∧
    ∀ range_order url_Parse deliver data, ∃ errs σ'' atts,
      Notify range_order url_Parse deliver en data σ' = Done errs σ'' ∧
      sent σ'' = (sent σ' ++ atts)%list ∧
      Forall (λ a, config.HTML (att_config a) = default_html) atts.
Proof.
  intros H.
  destruct (NewEmailNotifier_inv _ _ _ _ _ _ _ H)
    as (receiver & base & cb & tmpl & -> & Eb & Hb & -> & -> & Hc & ->).
  exists receiver, base, cb, (fresh (dom (configs σ))).
  pose proof (fresh_config σ) as Hf.
  assert (fresh (dom (configs σ)) ≠ base) as Hne by congruence.
  repeat split; try done.
  - eexists. split; [exact Hc|]. cbn. by rewrite lookup_insert_eq.
  - cbn. by rewrite lookup_insert_eq.
  - cbn. by rewrite lookup_insert_ne.
  - intros range_order url_Parse deliver data.
    destruct (NewEmailNotifier_ready _ _ _ _ _ _ _ H)
      as (l & c & h & tl & t & R & Hhtml & _).
    destruct (Notify_spec range_order url_Parse deliver _ _ _ _ _ _ _ data
                _ R) as (σ'' & E & F).
    eexists _, σ'', _. split; [exact E|]. split; [apply F|].
    eapply Forall_impl; [apply all_attempts_Forall|].
    intros a (_ & to & _ & ->). exact Hhtml.
Qed.

Lemma NewEmailNotifier_default_html_witness :
  config.HTML <$> configs example_store !! 1%positive = Some "<p>custom</p>" ∧
  config.HTML <$> configs (example_built None) !! 2%positive
  = Some default_html.
Proof.
  destruct (NewEmailNotifier_default_html example_templates example_logger
              (EmailValue (Some example_receiver)) None example_store
              (example_notifier None) (example_built None))
    as (receiver & base & cb & l & _ & _ & _ & _ & Hl & Hhtml & _).
  - vm_compute. reflexivity.
  - injection Hl as <-. split; [vm_compute; reflexivity|exact Hhtml].
Defined.

(** * Further properties of the subject and of the conversions *)

Lemma kvToLabelSet_id (obj : gmap string string) : kvToLabelSet obj = obj.
Proof.
  unfold kvToLabelSet.
  apply (map_fold_weak_ind (λ r m, r = m)); [done|].
  by intros k v m r _ ->.
Qed.

(** X1.  [kvToLabelSet] copies a label map entry by entry: the label set
    has, at every name, the value that the map has, and no other name. *)
Theorem kvToLabelSet_lookup (obj : gmap string string) (k : string) :
  kvToLabelSet obj !! k = obj !! k ∧
  dom (kvToLabelSet obj) = dom obj.
Proof. by rewrite kvToLabelSet_id. Qed.

(** X2.  [Notify] hands the transport one alert for each alert of the
    batch, in the same order and whatever its status, with the labels,
    the annotations, both times and the generator URL as they are. *)
Theorem convert_alerts_verbatim (as_ : list template.Alert) :
  length (convert_alerts as_) = length as_ ∧
  ∀ i a,
    as_ !! i = Some a →
    ∃ b,
      convert_alerts as_ !! i = Some b ∧
      model.Labels (types.Alert_ b) = template.Labels a ∧
      model.Annotations (types.Alert_ b) = template.Annotations a ∧
      model.StartsAt (types.Alert_ b) = template.StartsAt a ∧
      model.EndsAt (types.Alert_ b) = template.EndsAt a ∧
      model.GeneratorURL (types.Alert_ b) = template.GeneratorURL a.
Proof.
  unfold convert_alerts. split; [apply length_fmap|].
  intros i a Hi. eexists. rewrite list_lookup_fmap, Hi. cbn.
  split; [reflexivity|]. cbn. by rewrite !kvToLabelSet_id.
Qed.

Lemma subject_stem_format (d : template.Data) :
  subject_stem d =
    (if (0 <? length (template.Firing (template.Alerts_ d)))%nat
     then "[FIRING:" +:+
          pretty (length (template.Firing (template.Alerts_ d))) +:+ "] "
     else "") +:+
    (if (0 <? length (template.Resolved (template.Alerts_ d)))%nat
     then "[RESOLVED:" +:+
          pretty (length (template.Resolved (template.Alerts_ d))) +:+ "] "
     else "") +:+
    names_part (index (template.CommonLabels d) "namespace")
               (index (template.CommonLabels d) "alertname").
Proof.
  unfold subject_stem, getSubject. cbn [foldl].
  generalize (length (template.Firing (template.Alerts_ d))) as f.
  generalize (length (template.Resolved (template.Alerts_ d))) as r.
  intros [|r] [|f];
    destruct (index (template.CommonLabels d) "namespace") as [|a ns],
      (index (template.CommonLabels d) "alertname") as [|b an];
    cbn [String.length Nat.ltb Nat.leb names_part];
    rewrite ?append_nil_r, ?append_nil_l, ?append_assoc; reflexivity.
Qed.

Lemma append_assoc_3 (s t u v : string) :
  (s +:+ t +:+ u) +:+ v = s +:+ t +:+ u +:+ v.
Proof. by rewrite !append_assoc. Qed.

(** X3.  The subject is the count of firing alerts in brackets, if there
    is one, then that of resolved alerts, if there is one, then the
    namespace and the alert name, then the other labels in parentheses.
    A non-empty namespace is preceded by a space, also when nothing
    precedes it, and followed by a slash and the alert name; without a
    namespace the alert name follows the counts directly. *)
Theorem getSubject_format (d : template.Data)
    (order : list (string * string)) :
  getSubject order d =
    (if (0 <? length (template.Firing (template.Alerts_ d)))%nat
     then "[FIRING:" +:+
          pretty (length (template.Firing (template.Alerts_ d))) +:+ "] "
     else "") +:+
    (if (0 <? length (template.Resolved (template.Alerts_ d)))%nat
     then "[RESOLVED:" +:+
          pretty (length (template.Resolved (template.Alerts_ d))) +:+ "] "
     else "") +:+
    names_part (index (template.CommonLabels d) "namespace")
               (index (template.CommonLabels d) "alertname") +:+
    labels_suffix (filter other_label order).
Proof.
  rewrite getSubject_stem, <- !append_assoc_3. f_equal.
  apply subject_stem_format.
Qed.

(** X4.  A [namespace] or [alertname] label whose value is empty counts
    as missing: the subject is that of the batch without the label. *)
Theorem getSubject_blank_value_as_missing (d : template.Data)
    (order : list (string * string)) (k : string) :
  k = "namespace" ∨ k = "alertname" →
  template.CommonLabels d !! k = Some "" →
  getSubject order d
  = getSubject (filter (λ kv, kv.1 ≠ k) order)
      (with_labels (delete k (template.CommonLabels d)) d).
Proof.
  intros Hk Hv.
  assert (∀ j, index (delete k (template.CommonLabels d)) j
               = index (template.CommonLabels d) j) as Hi.
  { intros j. unfold index. destruct (decide (k = j)) as [<-|Hne].
    - by rewrite Hv, lookup_delete_eq.
    - by rewrite lookup_delete_ne. }
  assert (filter other_label (filter (λ kv, kv.1 ≠ k) order)
          = filter other_label order) as Hf.
  { induction order as [|[k' v'] order IH]; [done|].
    rewrite !filter_cons. cbn [fst].
    destruct (decide (k' ≠ k)) as [Hne|He].
    - rewrite filter_cons. destruct (decide (other_label (k', v')));
        by rewrite IH.
    - apply dec_stable in He. subst k'.
      rewrite decide_False; [done|]. unfold other_label. cbn. tauto. }
  rewrite !getSubject_format.
  cbn [with_labels template.Alerts_ template.CommonLabels].
  by rewrite !Hi, Hf.
Qed.

Lemma getSubject_blank_value_as_missing_witness :
  getSubject [("namespace", ""); ("alertname", "HighCPU")]
    (batch_of [firing_alert]
       {[ "namespace" := ""; "alertname" := "HighCPU" ]})
  = "[FIRING:1] HighCPU".
Proof.
  rewrite (getSubject_blank_value_as_missing _ _ "namespace").
  - vm_compute. reflexivity.
  - by left.
  - vm_compute. reflexivity.
Defined.

(** X5.  A batch with a firing alert has a subject that begins with the
    count of firing alerts; a batch with resolved alerts only has one
    that begins with the count of resolved alerts. *)
Theorem getSubject_begins_with_count (d : template.Data)
    (order : list (string * string)) (f r : nat) :
  length (template.Firing (template.Alerts_ d)) = f →
  length (template.Resolved (template.Alerts_ d)) = r →
  (0 < f ∨ 0 < r)%nat →
  ∃ rest,
    getSubject order d =
      (if (0 <? f)%nat
       then "[FIRING:" +:+ pretty f +:+ "] "
       else "[RESOLVED:" +:+ pretty r +:+ "] ") +:+ rest.
Proof.
  intros <- <- H. rewrite getSubject_format.
  destruct (length (template.Firing (template.Alerts_ d))) as [|f].
  - destruct (length (template.Resolved (template.Alerts_ d))) as [|r];
      [lia|].
    cbn [Nat.ltb Nat.leb]. eexists.
    rewrite append_nil_l, !append_assoc. reflexivity.
  - cbn [Nat.ltb Nat.leb]. eexists. rewrite !append_assoc. reflexivity.
Qed.

Lemma getSubject_begins_with_count_witness :
  ∃ rest,
    getSubject [] (batch_of [resolved_alert; resolved_alert] ∅)
    = "[RESOLVED:2] " +:+ rest.
Proof.
  destruct (getSubject_begins_with_count
              (batch_of [resolved_alert; resolved_alert] ∅) [] 0 2)
    as [rest E].
  - vm_compute. reflexivity.
  - vm_compute. reflexivity.
  - right. lia.
  - exists rest. rewrite E. vm_compute. reflexivity.
Defined.

(** * Loops *)

Lemma for_each_app {A B} (body : B → A → M B) (l1 l2 : list A) acc σ :
  for_each body acc (l1 ++ l2) σ
  = bind (for_each body acc l1) (λ acc', for_each body acc' l2) σ.
Proof.
  revert acc σ. induction l1 as [|x l1 IH]; intros acc σ; [reflexivity|].
  cbn [app for_each]. unfold bind.
  destruct (body acc x σ) as [acc' σ'|]; [|done]. by rewrite IH.
Qed.

Lemma for_each_appends {A} (body : list string → A → M (list string)) l :
  appends body → appends (λ acc (_ : unit), for_each body acc l).
Proof.
  intros Hb. induction l as [|x l IH]; intros acc [] σ; cbn [for_each].
  - unfold ret. by rewrite app_nil_r.
  - unfold bind. rewrite (Hb acc x σ).
    destruct (body [] x σ) as [e σ1|]; [|done].
    rewrite (IH (acc ++ e)%list tt σ1), (IH e tt σ1).
    destruct (for_each body [] l σ1) as [e2 σ2|]; [|done].
    by rewrite app_assoc.
Qed.

Lemma bind_appends {A} (m : M A) (k k0 : A → M (list string)) acc σ :
  (∀ a σ1,
     k a σ1 = match k0 a σ1 with
              | Done e σ' => Done (acc ++ e)%list σ'
              | Panic => Panic
              end) →
  bind m k σ = match bind m k0 σ with
               | Done e σ' => Done (acc ++ e)%list σ'
               | Panic => Panic
               end.
Proof. intros H. unfold bind. destruct (m σ); [apply H|done]. Qed.

Lemma sendEmail_appends deliver en d as_ :
  appends (λ errs to, sendEmail deliver en d as_ errs to).
Proof.
  intros acc to σ. unfold sendEmail.
  apply bind_appends. intros _ σ1. apply bind_appends. intros [e|] σ2.
  - run. destruct (Config en) as [l|]; [|done].
    destruct (configs σ2 !! l) as [c|]; [|done]. cbn.
    destruct (config.Headers c) as [h|]; [|done].
    destruct (header_maps σ2 !! h) as [m|]; done.
  - run. by rewrite app_nil_r.
Qed.

Lemma notify_batch_appends range_order url_Parse deliver en :
  appends (notify_batch range_order url_Parse deliver en).
Proof.
  intros acc d σ. unfold notify_batch.
  do 2 (apply bind_appends; intros ? ?).
  apply bind_appends; intros _ ?. apply bind_appends; intros ? ?.
  apply bind_appends; intros _ ?.
  apply (for_each_appends _ (To en) (sendEmail_appends _ _ _ _) acc tt).
Qed.

(** X6.  [Notify] on two lists of batches, one after the other, does
    what two calls do, the second in the store that the first one
    leaves, and returns the errors of the first followed by those of the
    second; it panics if either call does. *)
Theorem Notify_app range_order url_Parse deliver en
    (data1 data2 : list template.Data) σ :
  Notify range_order url_Parse deliver en (data1 ++ data2) σ =
  match Notify range_order url_Parse deliver en data1 σ with
  | Done errs1 σ1 =>
      match Notify range_order url_Parse deliver en data2 σ1 with
      | Done errs2 σ2 => Done (errs1 ++ errs2)%list σ2
      | Panic => Panic
      end
  | Panic => Panic
  end.
Proof.
  unfold Notify. rewrite for_each_app. unfold bind.
  destruct (for_each _ [] data1 σ) as [errs1 σ1|]; [|done].
  apply (for_each_appends _ data2
           (notify_batch_appends range_order url_Parse deliver en) errs1 tt).
Qed.

Lemma notify_batch_Done_ready range_order url_Parse deliver en errs d σ e σ' :
  notify_batch range_order url_Parse deliver en errs d σ = Done e σ' →
  ∃ l c h m tl t, ready σ en l c h m tl t.
Proof.
  unfold notify_batch. run.
  destruct (Config en) as [l|] eqn:E1; [|done].
  destruct (configs σ !! l) as [c|] eqn:E2; [|done]. cbn.
  destruct (config.Headers c) as [h|] eqn:E3; [|done].
  destruct (header_maps σ !! h) as [m|] eqn:E4; [|done]. cbn.
  destruct (Template en) as [tl|] eqn:E5; [|done].
  destruct (templates σ !! tl) as [t|] eqn:E6; [|done]. cbn.
  intros _. by exists l, c, h, m, tl, t.
Qed.

(** X7.  [Notify] runs to its end exactly when there is no batch or the
    notifier is usable: its configuration pointer is not nil, the header
    map of the configuration is allocated, and its template pointer is
    not nil.  Otherwise the first batch makes it panic. *)
Theorem Notify_returns_iff range_order url_Parse deliver en
    (data : list template.Data) σ :
  (∃ errs σ',
     Notify range_order url_Parse deliver en data σ = Done errs σ')
  ↔ data = [] ∨ ∃ l c h m tl t, ready σ en l c h m tl t.
Proof.
  split.
  - intros (errs & σ' & H). destruct data as [|d data]; [by left|right].
    unfold Notify in H. cbn [for_each] in H. unfold bind in H.
    destruct (notify_batch range_order url_Parse deliver en [] d σ)
      as [e σ1|] eqn:E; [|done].
    by eapply notify_batch_Done_ready.
  - intros [->|(l & c & h & m & tl & t & R)]; [by eexists _, _|].
    destruct (Notify_spec range_order url_Parse deliver _ _ _ _ _ _ _ data
                _ R) as (σ' & E & _).
    eauto.
Qed.

(** X8.  [Notify] allocates nothing and writes to the configuration, the
    header map and the template of its notifier only: every other
    configuration, header map and template is after the call what it was
    before, and the notifier is usable again. *)
Theorem Notify_frame range_order url_Parse deliver en l c h m tl t
    (data : list template.Data) σ errs σ' :
  ready σ en l c h m tl t →
  Notify range_order url_Parse deliver en data σ = Done errs σ' →
  dom (configs σ') = dom (configs σ) ∧
  dom (header_maps σ') = dom (header_maps σ) ∧
  dom (templates σ') = dom (templates σ) ∧
  (∀ l', l' ≠ l → configs σ' !! l' = configs σ !! l') ∧
  (∀ h', h' ≠ h → header_maps σ' !! h' = header_maps σ !! h') ∧
  (∀ tl', tl' ≠ tl → templates σ' !! tl' = templates σ !! tl') ∧
  ∃ c' m' t', ready σ' en l c' h m' tl t'.
Proof.
  intros R H.
  destruct (Notify_spec range_order url_Parse deliver _ _ _ _ _ _ _ data
              _ R) as (σ1 & E & F).
  rewrite E in H. injection H as _ <-.
  assert (config.Headers (final_config en c data) = Some h) as Hh.
  { destruct data; cbn; [apply R|]. unfold last_To.
    destruct (last (To en)); apply R. }
  pose proof (effect_ready _ _ _ _ _ _ _ _ _ _ _ _ _ _ R F Hh) as R'.
  destruct F as [F1 F2 F3 _ _], R as [_ R2 _ R4 _ R6].
  rewrite F1, F2, F3.
  repeat split.
  - by apply dom_insert_lookup_L.
  - by apply dom_insert_lookup_L.
  - by apply dom_insert_lookup_L.
  - intros l' Hl. by rewrite lookup_insert_ne.
  - intros h' Hl. by rewrite lookup_insert_ne.
  - intros tl' Hl. by rewrite lookup_insert_ne.
  - eauto.
Qed.



Lemma omap_id_nil (rs : list (option string)) :
  omap id rs = [] ↔ Forall (λ r, r = None) rs.
Proof.
  induction rs as [|[e|] rs IH]; cbn.
  - split; [by constructor|done].
  - split; [done|]. by inversion 1.
  - rewrite IH. split; [by constructor|]. by inversion 1.
Qed.

(** X10.  [Notify] returns the empty list exactly when none of its
    delivery attempts failed. *)
Theorem Notify_no_error_iff range_order url_Parse deliver en l c h m tl t
    (data : list template.Data) σ errs σ' :
  ready σ en l c h m tl t →
  Notify range_order url_Parse deliver en data σ = Done errs σ' →
  ∃ atts,
    sent σ' = (sent σ ++ atts)%list ∧
    (errs = [] ↔
     Forall (λ r, r = None) (outcomes deliver (length (sent σ)) atts)).
Proof.
  intros R H.
  destruct (Notify_spec range_order url_Parse deliver _ _ _ _ _ _ _ data
              _ R) as (σ1 & E & F).
  rewrite E in H. injection H as <- <-.
  eexists. split; [apply F|]. apply omap_id_nil.
Qed.

(** * The log *)

Lemma trace_logs_app deliver n atts1 atts2 :
  trace_logs deliver n (atts1 ++ atts2)
  = (trace_logs deliver n atts1
     ++ trace_logs deliver (n + length atts1) atts2)%list.
Proof.
  revert n. induction atts1 as [|a atts1 IH]; intros n; cbn.
  - by rewrite Nat.add_0_r.
  - rewrite IH, <- app_assoc. do 3 f_equal. lia.
Qed.

Lemma sendEmail_logs deliver en l c h m tl t d errs to σ e σ' :
  ready σ en l c h m tl t →
  sendEmail deliver en d (convert_alerts (template.Alerts_ d)) errs to σ
  = Done e σ' →
  logs σ' = (logs σ ++ trace_logs deliver (length (sent σ))
                         [attempt_for en c m t d to])%list.
Proof.
  intros [R1 R2 R3 R4 R5 R6].
  unfold sendEmail, assign_config, email_Notify. run.
  rewrite R1, R5. cbn. rewrite R2. cbn.
  rewrite lookup_insert_eq. cbn. rewrite R3, R4. cbn. rewrite R6. cbn.
  fold (attempt_for en c m t d to).
  destruct (deliver (length (sent σ)) (attempt_for en c m t d to)) as [x|];
    cbn.
  - rewrite lookup_insert_eq. cbn. rewrite R3, R4. cbn.
    intros [= _ <-]. cbn. by rewrite <- app_assoc.
  - intros [= _ <-]. done.
Qed.

Lemma recipients_logs deliver en l h m tl t d tos :
  ∀ c errs σ e σ',
    ready σ en l c h m tl t →
    for_each (sendEmail deliver en d (convert_alerts (template.Alerts_ d)))
      errs tos σ = Done e σ' →
    logs σ' = (logs σ ++ trace_logs deliver (length (sent σ))
                           (attempt_for en c m t d <$> tos))%list.
Proof.
  induction tos as [|to tos IH]; intros c errs σ e σ' R H.
  - injection H as _ <-. cbn. by rewrite app_nil_r.
  - destruct (sendEmail_spec deliver en l c h m tl t d errs to σ R)
      as (σ1 & E1 & F1).
    pose proof (sendEmail_logs _ _ _ _ _ _ _ _ _ _ _ _ _ _ R E1) as L1.
    pose proof (effect_ready _ _ _ _ _ _ _ _ _ _ _ _ _ _ R F1
                  (ready_Headers _ _ _ _ _ _ _ _ R)) as R1.
    cbn [for_each] in H. rewrite (bind_Done _ _ _ _ _ E1) in H.
    rewrite (IH _ _ _ _ _ R1 H), L1.
    rewrite (effect_sent _ _ _ _ _ _ _ _ _ _ F1), length_app.
    cbn [fmap list_fmap trace_logs length]. rewrite <- !app_assoc.
    do 2 f_equal. cbn. by replace (length (sent σ) + 1) with
      (S (length (sent σ))) by lia.
Qed.

Lemma notify_batch_logs range_order url_Parse deliver en l c h m tl t d
    errs σ e σ' :
  ready σ en l c h m tl t →
  notify_batch range_order url_Parse deliver en errs d σ = Done e σ' →
  logs σ' =
    (logs σ ++ trace_logs deliver (length (sent σ))
                 (attempt_for en c (batch_headers range_order (seed σ) m d)
                    (batch_template url_Parse t d) d <$> To en))%list.
Proof.
  intros R H.
  set (m1 := batch_headers range_order (seed σ) m d).
  set (t1 := batch_template url_Parse t d).
  set (σ0 :=
    {| configs := configs σ; header_maps := <[h := m1]> (header_maps σ);
       templates := <[tl := t1]> (templates σ); logs := logs σ;
       sent := sent σ; seed := S (seed σ) |}).
  assert (ready σ0 en l c h m1 tl t1) as R0.
  { destruct R. split; cbn; try done; apply lookup_insert_eq. }
  apply (recipients_logs deliver en l h m1 tl t1 d (To en) c errs σ0 e σ' R0).
  destruct R as [R1 R2 R3 R4 R5 R6].
  unfold notify_batch in H. run in H. rewrite R1, R5 in H. cbn in H.
  rewrite R2 in H. cbn in H. rewrite R3, R4 in H. cbn in H.
  rewrite R6 in H. cbn in H. exact H.
Qed.

Lemma batches_logs range_order url_Parse deliver en l h tl data :
  ∀ c m t errs σ e σ',
    ready σ en l c h m tl t →
    for_each (notify_batch range_order url_Parse deliver en) errs data σ
    = Done e σ' →
    logs σ' =
      (logs σ ++ trace_logs deliver (length (sent σ))
                   (all_attempts range_order url_Parse en c (seed σ) m t
                      data))%list.
Proof.
  induction data as [|d data IH]; intros c m t errs σ e σ' R H.
  - injection H as _ <-. cbn. by rewrite app_nil_r.
  - destruct (notify_batch_spec range_order url_Parse deliver
                en l c h m tl t d errs σ R) as (σ1 & E1 & F1).
    cbv zeta in E1, F1.
    pose proof (notify_batch_logs _ _ _ _ _ _ _ _ _ _ _ _ _ _ _ R E1) as L1.
    assert (config.Headers (last_To (To en) c) = Some h) as Hh.
    { unfold last_To. destruct (last (To en)); apply R. }
    pose proof (effect_ready _ _ _ _ _ _ _ _ _ _ _ _ _ _ R F1 Hh) as R1.
    cbn [for_each] in H. rewrite (bind_Done _ _ _ _ _ E1) in H.
    rewrite (IH _ _ _ _ _ _ _ R1 H), L1.
    rewrite all_attempts_last_To.
    rewrite (effect_seed _ _ _ _ _ _ _ _ _ _ F1).
    rewrite (effect_sent _ _ _ _ _ _ _ _ _ _ F1), length_app.
    cbn [all_attempts]. rewrite trace_logs_app, <- app_assoc.
    by replace (seed σ + 1) with (S (seed σ)) by lia.
Qed.

(** X11.  [Notify] logs, for each delivery attempt in turn, an error
    line with the subject header, the recipient and the error when the
    attempt fails, and then a debug line with the recipient; it logs
    nothing else. *)
Theorem Notify_logs range_order url_Parse deliver en l c h m tl t
    (data : list template.Data) σ errs σ' :
  ready σ en l c h m tl t →
  Notify range_order url_Parse deliver en data σ = Done errs σ' →
  ∃ atts,
    sent σ' = (sent σ ++ atts)%list ∧
    logs σ' = (logs σ ++ trace_logs deliver (length (sent σ)) atts)%list.
Proof.
  intros R H.
  destruct (Notify_spec range_order url_Parse deliver _ _ _ _ _ _ _ data
              _ R) as (σ1 & E & F).
  pose proof H as H'. rewrite E in H'. injection H' as _ <-.
  eexists. split; [apply F|].
  exact (batches_logs _ _ _ _ _ _ _ data _ _ _ _ _ _ _ R H).
Qed.

(** * Clone and construction, continued *)

(** X12.  [Clone] returns nil exactly for the nil base, and then it
    leaves the store as it is. *)
Theorem Clone_nil_iff (ec : option positive) (σ σ' : Store) :
  Clone ec σ = Done None σ' ↔ ec = None ∧ σ' = σ.
Proof.
  split; [apply Clone_None_inv|]. by intros [-> ->].
Qed.

(** X13.  For a base configuration that is not nil, [Clone] panics
    exactly when the [RequireTLS] pointer of the base is nil. *)
Theorem Clone_panics_iff (base : positive) (cb : config.EmailConfig)
    (σ : Store) :
  configs σ !! base = Some cb →
  (Clone (Some base) σ = Panic ↔ config.RequireTLS cb = None).
Proof.
  intros Hb. unfold Clone. run. rewrite Hb.
  by destruct (config.RequireTLS cb).
Qed.

Lemma Clone_panics_iff_witness :
  Clone (Some 1%positive)
    (set_configs <[1%positive := example_base_without_tls]> empty_store)
  = Panic.
Proof.
  apply (Clone_panics_iff 1%positive example_base_without_tls).
  - vm_compute. reflexivity.
  - reflexivity.
Defined.

(** X14.  A clone is a new configuration at an address that was unused:
    it has an empty destination, a nil header map and a zero notifier
    configuration, it shares the [RequireTLS] pointer of the base and has
    the other fields of the base.  [Clone] leaves the base and every
    other configuration, the header maps, the templates, the log and the
    trace of deliveries as they are. *)
Theorem Clone_frame (base l : positive) (σ σ' : Store) :
  Clone (Some base) σ = Done (Some l) σ' →
  ∃ cb,
    configs σ !! base = Some cb ∧
    configs σ !! l = None ∧
    configs σ' !! l = Some (cloned cb) ∧
    config.To (cloned cb) = "" ∧
    config.Headers (cloned cb) = None ∧
    config.Notifier (cloned cb) = {| config.VSendResolved := false |} ∧
    config.RequireTLS (cloned cb) = config.RequireTLS cb ∧
    (∀ l', l' ≠ l → configs σ' !! l' = configs σ !! l') ∧
    header_maps σ' = header_maps σ ∧ templates σ' = templates σ ∧
    logs σ' = logs σ ∧ sent σ' = sent σ.
Proof.
  intros H.
  destruct (Clone_Some_inv _ _ _ _ H) as (b & cb & [= <-] & Hb & _ & -> & ->).
  exists cb. cbn. rewrite lookup_insert_eq.
  repeat split; try done.
  - apply fresh_config.
  - intros l' Hl. by rewrite lookup_insert_ne.
Qed.

Lemma Clone_frame_witness :
  ∃ cb,
    configs example_store !! 1%positive = Some cb ∧
    configs (result_store (Clone (Some 1%positive) example_store))
      !! 2%positive = Some (cloned cb).
Proof.
  destruct (Clone_frame 1%positive 2%positive example_store
              (result_store (Clone (Some 1%positive) example_store)))
    as (cb & H1 & _ & H2 & _).
  - vm_compute. reflexivity.
  - by exists cb.
Defined.

Lemma NewEmailNotifier_run tfg logger opts receiver base cb tmpl σ :
  notifyconfig.EmailConfig receiver = Some base →
  configs σ !! base = Some cb →
  is_Some (config.RequireTLS cb) →
  tfg = inl tmpl →
  ∃ en σ',
    NewEmailNotifier tfg logger (EmailValue (Some receiver)) opts σ
    = Done (Some en) σ'.
Proof.
  intros Eb Hb [r Hr] ->. unfold NewEmailNotifier, Clone, assign_config.
  rewrite Eb. run. rewrite Hb, Hr. cbn.
  repeat (rewrite lookup_insert_eq; cbn). eauto.
Qed.

(** X15.  The construction returns a notifier exactly when the value is a
    pointer, not nil, to an email receiver whose base configuration is
    not nil and has a [RequireTLS] pointer that is not nil, and the
    default templates load. *)
Theorem NewEmailNotifier_succeeds_iff tfg logger (val : Value) opts σ :
  (∃ en σ', NewEmailNotifier tfg logger val opts σ = Done (Some en) σ')
  ↔ ∃ receiver base cb tmpl,
      val = EmailValue (Some receiver) ∧
      notifyconfig.EmailConfig receiver = Some base ∧
      configs σ !! base = Some cb ∧
      is_Some (config.RequireTLS cb) ∧
      tfg = inl tmpl.
Proof.
  split.
  - intros (en & σ' & H).
    destruct (NewEmailNotifier_inv _ _ _ _ _ _ _ H)
      as (receiver & base & cb & tmpl & -> & Eb & Hb & -> & _ & Hc & _).
    destruct (Clone_Some_inv _ _ _ _ Hc)
      as (b & cb' & [= <-] & Hb' & Hr & _).
    exists receiver, base, cb, tmpl. by simplify_eq.
  - intros (receiver & base & cb & tmpl & -> & Eb & Hb & Hr & ->).
    by eapply NewEmailNotifier_run.
Qed.

Lemma NewEmailNotifier_template_error tfg logger opts receiver base cb err
    σ :
  notifyconfig.EmailConfig receiver = Some base →
  configs σ !! base = Some cb →
  is_Some (config.RequireTLS cb) →
  tfg = inr err →
  NewEmailNotifier tfg logger (EmailValue (Some receiver)) opts σ
  = Done None
      {| configs :=
           <[fresh (dom (configs σ)) :=
               config.set_HTML default_html
                 (config.set_Headers (Some (fresh (dom (header_maps σ))))
                    (cloned cb))]> (configs σ);
         header_maps :=
           <[fresh (dom (header_maps σ)) := ∅]> (header_maps σ);
         templates := templates σ;
         logs := logs σ ++
                 [ {| level := LevelError;
                      keyvals := ["msg"; "Notifier: template error";
                                  "error"; err] |} ];
         sent := sent σ; seed := seed σ |}.
Proof.
  intros Eb Hb [r Hr] ->. unfold NewEmailNotifier, Clone, assign_config.
  rewrite Eb. run. rewrite Hb, Hr. cbn.
  repeat (rewrite lookup_insert_eq; cbn). rewrite !insert_insert_eq.
  unfold cloned. by rewrite Hr.
Qed.

(** X16.  When the base pointer of the receiver, if not nil, leads to a
    configuration, the construction panics exactly when the value is a
    nil pointer to an email receiver, or the base configuration has a nil
    [RequireTLS] pointer. *)
Theorem NewEmailNotifier_panics_iff tfg logger (val : Value) opts σ :
  (∀ receiver base,
     val = EmailValue (Some receiver) →
     notifyconfig.EmailConfig receiver = Some base →
     is_Some (configs σ !! base)) →
  (NewEmailNotifier tfg logger val opts σ = Panic
   ↔ val = EmailValue None ∨
     ∃ receiver base cb,
       val = EmailValue (Some receiver) ∧
       notifyconfig.EmailConfig receiver = Some base ∧
       configs σ !! base = Some cb ∧
       config.RequireTLS cb = None).
Proof.
  intros Hd. destruct val as [|[receiver|]|ty].
  - split; [by unfold NewEmailNotifier; run|].
    intros [|(? & ? & ? & ? & _)]; done.
  - destruct (notifyconfig.EmailConfig receiver) as [base|] eqn:Eb.
    + destruct (Hd receiver base eq_refl Eb) as [cb Hb].
      destruct (config.RequireTLS cb) as [r|] eqn:Hr.
      * split.
        -- intros H. destruct tfg as [tmpl|err].
           ++ destruct (NewEmailNotifier_run (inl tmpl) logger opts receiver
                          base cb tmpl σ) as (en & σ' & E); eauto.
              congruence.
           ++ rewrite (NewEmailNotifier_template_error (inr err) logger opts
                         receiver base cb err σ) in H; eauto. done.
        -- intros [|(? & ? & ? & ? & ? & ? & ?)]; simplify_eq.
      * split; [intros _; right; by exists receiver, base, cb|].
        intros _. unfold NewEmailNotifier, Clone. rewrite Eb. run.
        by rewrite Hb, Hr.
    + split.
      * unfold NewEmailNotifier, Clone. rewrite Eb. by run.
      * intros [|(? & ? & ? & ? & ? & ? & ?)]; simplify_eq.
  - split; [by left|done].
  - split; [by unfold NewEmailNotifier; run|].
    intros [|(? & ? & ? & ? & _)]; done.
Qed.

Lemma NewEmailNotifier_panics_iff_witness :
  NewEmailNotifier example_templates example_logger
    (EmailValue (Some example_receiver)) None
    (set_configs <[1%positive := example_base_without_tls]> empty_store)
  = Panic.
Proof.
  apply NewEmailNotifier_panics_iff.
  - intros receiver base [= <-] [= <-]. vm_compute. eauto.
  - right. exists example_receiver, 1%positive, example_base_without_tls.
    repeat split; vm_compute; reflexivity.
Defined.

(** X17.  When the default templates do not load, the construction
    returns nil and logs the error of the loader; the clone of the base
    and its header map, made before, stay in the store, and nothing is
    delivered. *)
Theorem NewEmailNotifier_template_failure tfg logger opts receiver base cb
    err σ :
  notifyconfig.EmailConfig receiver = Some base →
  configs σ !! base = Some cb →
  is_Some (config.RequireTLS cb) →
  tfg = inr err →
  ∃ σ',
    NewEmailNotifier tfg logger (EmailValue (Some receiver)) opts σ
    = Done None σ' ∧
    logs σ' = (logs σ ++
               [ {| level := LevelError;
                    keyvals := ["msg"; "Notifier: template error";
                                "error"; err] |} ])%list ∧
    dom (configs σ') = {[ fresh (dom (configs σ)) ]} ∪ dom (configs σ) ∧
    dom (header_maps σ')
    = {[ fresh (dom (header_maps σ)) ]} ∪ dom (header_maps σ) ∧
    templates σ' = templates σ ∧ sent σ' = sent σ ∧
    configs σ' !! base = Some cb.
Proof.
  intros Eb Hb Hr ->. eexists.
  split; [by eapply NewEmailNotifier_template_error|]. cbn.
  rewrite !dom_insert_L. repeat split; try done.
  rewrite lookup_insert_ne; [done|].
  pose proof (fresh_config σ). congruence.
Qed.

Lemma NewEmailNotifier_template_failure_witness :
  ∃ σ',
    NewEmailNotifier (inr "no such file") example_logger
      (EmailValue (Some example_receiver)) None example_store
    = Done None σ' ∧
    sent σ' = [].
Proof.
  destruct (NewEmailNotifier_template_failure (inr "no such file")
              example_logger None example_receiver 1%positive example_base
              "no such file" example_store)
    as (σ' & E & _ & _ & _ & _ & Hs & _).
  - reflexivity.
  - vm_compute. reflexivity.
  - vm_compute. eauto.
  - reflexivity.
  - exists σ'. split; [exact E|]. rewrite Hs. reflexivity.
Defined.

Lemma NewEmailNotifier_fresh tfg logger val opts σ en σ' :
  NewEmailNotifier tfg logger val opts σ = Done (Some en) σ' →
  ∃ l c h tl t,
    ready σ' en l c h ∅ tl t ∧
    configs σ !! l = None ∧ header_maps σ !! h = None ∧
    templates σ !! tl = None ∧
    configs σ' = <[l := c]> (configs σ) ∧
    header_maps σ' = <[h := ∅]> (header_maps σ) ∧
    templates σ' = <[tl := t]> (templates σ) ∧
    logs σ' = logs σ ∧ sent σ' = sent σ.
Proof.
  intros H.
  destruct (NewEmailNotifier_inv _ _ _ _ _ _ _ H)
    as (receiver & base & cb & tmpl & -> & Eb & Hb & -> & -> & _ & ->).
  do 5 eexists. split; [split; cbn|].
  - reflexivity.
  - apply lookup_insert_eq.
  - reflexivity.
  - apply lookup_insert_eq.
  - reflexivity.
  - apply lookup_insert_eq.
  - cbn. repeat split; try done; apply not_elem_of_dom, is_fresh.
Qed.

(** X18.  Whatever exists in the store before a construction is left
    alone by the construction and by every later [Notify] of the notifier
    it returns: the configurations (the base of the receiver among them),
    the header maps and the templates are what they were.  A successful
    construction logs nothing and delivers nothing. *)
Theorem NewEmailNotifier_isolates tfg logger val opts range_order
    url_Parse deliver (data : list template.Data) σ en σ' errs σ'' :
  NewEmailNotifier tfg logger val opts σ = Done (Some en) σ' →
  Notify range_order url_Parse deliver en data σ' = Done errs σ'' →
  (∀ l x, configs σ !! l = Some x →
          configs σ' !! l = Some x ∧ configs σ'' !! l = Some x) ∧
  (∀ h x, header_maps σ !! h = Some x →
          header_maps σ' !! h = Some x ∧ header_maps σ'' !! h = Some x) ∧
  (∀ tl x, templates σ !! tl = Some x →
           templates σ' !! tl = Some x ∧ templates σ'' !! tl = Some x) ∧
  logs σ' = logs σ ∧ sent σ' = sent σ.
Proof.
  intros H HN.
  destruct (NewEmailNotifier_fresh _ _ _ _ _ _ _ H)
    as (l & c & h & tl & t & R & Fl & Fh & Ft & Ec & Eh & Et & El & Es).
  destruct (Notify_spec range_order url_Parse deliver _ _ _ _ _ _ _ data
              _ R) as (σ1 & E & F).
  rewrite E in HN. injection HN as _ <-.
  destruct F as [F1 F2 F3 _ _]. rewrite F1, F2, F3, Ec, Eh, Et.
  repeat split; try done.
  - rewrite lookup_insert_ne; [done|congruence].
  - rewrite !lookup_insert_ne; [done|congruence..].
  - rewrite lookup_insert_ne; [done|congruence].
  - rewrite !lookup_insert_ne; [done|congruence..].
  - rewrite lookup_insert_ne; [done|congruence].
  - rewrite !lookup_insert_ne; [done|congruence..].
Qed.

(** X19.  Two notifiers built one after the other, from one receiver or
    from two, have configurations, header maps and templates of their
    own: a [Notify] of the first leaves those of the second as they
    are. *)
Theorem Notify_leaves_other_notifier tfg logger1 logger2 val1 val2 opts1
    opts2 range_order url_Parse deliver (data : list template.Data)
    σ en1 σ1 en2 σ2 errs σ3 :
  NewEmailNotifier tfg logger1 val1 opts1 σ = Done (Some en1) σ1 →
  NewEmailNotifier tfg logger2 val2 opts2 σ1 = Done (Some en2) σ2 →
  Notify range_order url_Parse deliver en1 data σ2 = Done errs σ3 →
  Config en1 ≠ Config en2 ∧ Template en1 ≠ Template en2 ∧
  ∃ l c h tl t,
    ready σ2 en2 l c h ∅ tl t ∧ ready σ3 en2 l c h ∅ tl t.
Proof.
  intros H1 H2 HN.
  destruct (NewEmailNotifier_fresh _ _ _ _ _ _ _ H1)
    as (l1 & c1 & h1 & tl1 & t1 & R1 & _ & _ & _ & _ & _ & _ & _ & _).
  destruct (NewEmailNotifier_fresh _ _ _ _ _ _ _ H2)
    as (l2 & c2 & h2 & tl2 & t2 & R2 & Fl & Fh & Ft & Ec & Eh & Et & _ & _).
  assert (l2 ≠ l1) as Nl by (destruct R1; congruence).
  assert (h2 ≠ h1) as Nh by (destruct R1; congruence).
  assert (tl2 ≠ tl1) as Nt by (destruct R1; congruence).
  assert (ready σ2 en1 l1 c1 h1 ∅ tl1 t1) as R1'.
  { destruct R1. split; try done.
    - by rewrite Ec, lookup_insert_ne.
    - by rewrite Eh, lookup_insert_ne.
    - by rewrite Et, lookup_insert_ne. }
  destruct (Notify_spec range_order url_Parse deliver _ _ _ _ _ _ _ data
              _ R1') as (σ' & E & F).
  rewrite E in HN. injection HN as _ <-.
  split; [destruct R1, R2; congruence|].
  split; [destruct R1, R2; congruence|].
  exists l2, c2, h2, tl2, t2. split; [done|].
  destruct F as [F1 F2 F3 _ _], R2. split; try done.
  - by rewrite F1, lookup_insert_ne.
  - by rewrite F2, lookup_insert_ne.
  - by rewrite F3, lookup_insert_ne.
Qed.

(** X20.  A usable notifier without recipients delivers nothing, returns
    no error and logs nothing, and its configuration stays as it is; the
    subject of the last batch is written to its header map all the
    same. *)
Theorem Notify_no_recipient range_order url_Parse deliver en l c h m tl t
    (data : list template.Data) σ errs σ' :
  ready σ en l c h m tl t →
  To en = [] →
  Notify range_order url_Parse deliver en data σ = Done errs σ' →
  errs = [] ∧ sent σ' = sent σ ∧ logs σ' = logs σ ∧
  configs σ' = configs σ ∧
  header_maps σ' !! h =
    Some match last data with
         | Some d =>
             <["Subject" :=
                 getSubject
                   (range_order (seed σ + length data - 1)
                      (template.CommonLabels d)) d]> m
         | None => m
         end.
Proof.
  intros R Hto H.
  destruct (Notify_spec range_order url_Parse deliver _ _ _ _ _ _ _ data
              _ R) as (σ1 & E & F).
  pose proof (batches_logs _ _ _ _ _ _ _ data _ _ _ _ _ _ _ R H) as L.
  rewrite E in H. injection H as <- <-.
  assert (all_attempts range_order url_Parse en c (seed σ) m t data = [])
    as Ha.
  { apply nil_length_inv. rewrite all_attempts_length, Hto. cbn. lia. }
  rewrite Ha in *. destruct F as [F1 F2 F3 F4 F5].
  rewrite F1, F2, F4, L, !app_nil_r, lookup_insert_eq. cbn.
  rewrite final_headers_last.
  repeat split; try done.
  apply insert_id. destruct data; cbn; [apply R|].
  unfold last_To. rewrite Hto. apply R.
Qed.

Lemma Notify_frame_witness :
  dom (configs example_after) = dom (configs (example_built None)).
Proof.
  destruct (Notify_frame example_order example_parse example_deliver
              (example_notifier None) 2%positive example_config 1%positive
              ∅ 1%positive example_template [example_batch]
              (example_built None) ["timeout"] example_after) as [H _].
  - split; vm_compute; reflexivity.
  - vm_compute. reflexivity.
  - exact H.
Defined.


Lemma Notify_no_error_iff_witness :
  ∃ atts,
    sent example_after = (sent (example_built None) ++ atts)%list ∧
    ¬ Forall (λ r, r = None) (outcomes example_deliver 0 atts).
Proof.
  destruct (Notify_no_error_iff example_order example_parse example_deliver
              (example_notifier None) 2%positive example_config 1%positive
              ∅ 1%positive example_template [example_batch]
              (example_built None) ["timeout"] example_after)
    as (atts & Hs & Hi).
  - split; vm_compute; reflexivity.
  - vm_compute. reflexivity.
  - exists atts. split; [exact Hs|]. intros Hf. by apply Hi in Hf.
Defined.

Lemma Notify_logs_witness :
  length (logs example_after) = 3.
Proof.
  destruct (Notify_logs example_order example_parse example_deliver
              (example_notifier None) 2%positive example_config 1%positive
              ∅ 1%positive example_template [example_batch]
              (example_built None) ["timeout"] example_after)
    as (atts & _ & _).
  - split; vm_compute; reflexivity.
  - vm_compute. reflexivity.
  - vm_compute. reflexivity.
Defined.

Lemma NewEmailNotifier_isolates_witness :
  configs example_after !! 1%positive = Some example_base.
Proof.
  destruct (NewEmailNotifier_isolates example_templates example_logger
              (EmailValue (Some example_receiver)) None example_order
              example_parse example_deliver [example_batch] example_store
              (example_notifier None) (example_built None) ["timeout"]
              example_after) as (Hc & _).
  - vm_compute. reflexivity.
  - vm_compute. reflexivity.
  - apply (Hc 1%positive example_base). vm_compute. reflexivity.
Defined.

Lemma Notify_leaves_other_notifier_witness :
  Config (example_notifier None) ≠ Config example_second_notifier.
Proof.
  destruct (Notify_leaves_other_notifier example_templates example_logger
              example_logger (EmailValue (Some example_receiver))
              (EmailValue (Some example_receiver)) None None example_order
              example_parse example_deliver [example_batch] example_store
              (example_notifier None) (example_built None)
              example_second_notifier example_built_twice ["timeout"]
              (result_store
                 (Notify example_order example_parse example_deliver
                    (example_notifier None) [example_batch]
                    example_built_twice))) as (H & _).
  - vm_compute. reflexivity.
  - vm_compute. reflexivity.
  - vm_compute. reflexivity.
  - exact H.
Defined.

Lemma Notify_no_recipient_witness :
  sent (result_store
          (Notify example_order example_parse example_deliver
             example_notifier_nobody [example_batch] example_built_nobody))
  = [].
Proof.
  destruct (Notify_no_recipient example_order example_parse example_deliver
              example_notifier_nobody 2%positive example_config 1%positive
              ∅ 1%positive example_template [example_batch]
              example_built_nobody []
              (result_store
                 (Notify example_order example_parse example_deliver
                    example_notifier_nobody [example_batch]
                    example_built_nobody))) as (_ & Hs & _).
  - split; vm_compute; reflexivity.
  - reflexivity.
  - vm_compute. reflexivity.
  - rewrite Hs. vm_compute. reflexivity.
Defined.

(** X21.  The notifier that the construction returns has the recipients
    of the receiver, in their order, and the logger it was given.  Its
    configuration has the sender, the greeting, the server, the
    credentials, the text body, the TLS settings and the [RequireTLS]
    pointer of the base; the notifier configuration of the base (whether
    resolved alerts are sent) is not carried over. *)
Theorem NewEmailNotifier_settings tfg lg val opts σ en σ' :
  NewEmailNotifier tfg lg val opts σ = Done (Some en) σ' →
  ∃ receiver base cb l c,
    val = EmailValue (Some receiver) ∧
    notifyconfig.EmailConfig receiver = Some base ∧
    configs σ !! base = Some cb ∧
    To en = notifyconfig.To receiver ∧
    logger en = lg ∧
    Config en = Some l ∧ configs σ' !! l = Some c ∧
    config.From c = config.From cb ∧
    config.Hello c = config.Hello cb ∧
    config.Smarthost c = config.Smarthost cb ∧
    config.AuthUsername c = config.AuthUsername cb ∧
    config.AuthPassword c = config.AuthPassword cb ∧
    config.AuthSecret c = config.AuthSecret cb ∧
    config.AuthIdentity c = config.AuthIdentity cb ∧
    config.Text c = config.Text cb ∧
    config.TLSConfig c = config.TLSConfig cb ∧
    config.RequireTLS c = config.RequireTLS cb ∧
    config.Notifier c = {| config.VSendResolved := false |}.
Proof.
  intros H.
  destruct (NewEmailNotifier_inv _ _ _ _ _ _ _ H)
    as (receiver & base & cb & tmpl & -> & Eb & Hb & -> & -> & _ & ->).
  exists receiver, base, cb. do 2 eexists. cbn.
  rewrite lookup_insert_eq. repeat split; done.
Qed.

Lemma NewEmailNotifier_settings_witness :
  To (example_notifier None) = ["a@example.org"; "b@example.org"].
Proof.
  destruct (NewEmailNotifier_settings example_templates example_logger
              (EmailValue (Some example_receiver)) None example_store
              (example_notifier None) (example_built None))
    as (receiver & base & cb & l & c & [= <-] & _ & _ & Ht & _).
  - vm_compute. reflexivity.
  - exact Ht.
Defined.
